(** * Path canonicalisation and root validation of the filesystem server

    A shallow embedding of [src/filesystem/path-utils.ts]
    ([convertToWindowsPath], [normalizePath], [expandHome]) and of
    [src/filesystem/roots-utils.ts] ([parseRootUri], [formatDirectoryError],
    [getValidRootDirectories]), together with the properties the
    specification states about them.

    JavaScript strings are sequences of UTF-16 code units; a code unit is a
    number, a string is a list of them.  The primitives of the host that the
    code calls ([path.normalize], [path.join], [path.resolve],
    [os.homedir], [fs.stat], [console.error]) are parameters of the
    sections below; [Module Posix] gives the ones of a POSIX host. *)

From Stdlib Require Import NArith List Bool Lia Arith.
From Stdlib Require Import Strings.String Strings.Ascii.
Import ListNotations.

(** ** JavaScript strings *)

Definition code_unit := N.
Definition jsstring := list code_unit.

(** A string literal of the source, as the list of its code units. *)
Definition js (s : string) : jsstring :=
  List.map N_of_ascii (list_ascii_of_string s).

Definition CHAR_FORWARD_SLASH : code_unit := 47%N.
Definition CHAR_BACKWARD_SLASH : code_unit := 92%N.
Definition CHAR_COLON : code_unit := 58%N.

Definition is_slash (c : code_unit) : bool := N.eqb c CHAR_FORWARD_SLASH.
Definition is_backslash (c : code_unit) : bool := N.eqb c CHAR_BACKWARD_SLASH.
Definition is_colon (c : code_unit) : bool := N.eqb c CHAR_COLON.

(** The character class of the two quote characters (double quote, code 34,
    and single quote, code 39), written [Q] below. *)
Definition is_quote (c : code_unit) : bool :=
  N.eqb c 34%N || N.eqb c 39%N.

(** The character classes [a-z], [A-Z] and [a-zA-Z].  With the [i] flag and
    no [u] flag, [a-z] matches the ASCII letters of both cases and nothing
    else: a code unit above 127 never folds onto an ASCII one. *)
Definition is_lower (c : code_unit) : bool := (N.leb 97 c && N.leb c 122)%N.
Definition is_upper (c : code_unit) : bool := (N.leb 65 c && N.leb c 90)%N.
Definition is_letter (c : code_unit) : bool := is_lower c || is_upper c.

(** A letter of the literal text [mnt] under the [i] flag. *)
Definition eq_nocase (l : code_unit) (c : code_unit) : bool :=
  N.eqb c l || N.eqb c (l - 32)%N.

(** The code units [String.prototype.trim] removes: ECMAScript's WhiteSpace
    and LineTerminator. *)
Definition is_space (c : code_unit) : bool :=
  (N.leb 9 c && N.leb c 13)%N
  || N.eqb c 32%N || N.eqb c 160%N || N.eqb c 5760%N
  || (N.leb 8192 c && N.leb c 8202)%N
  || N.eqb c 8232%N || N.eqb c 8233%N || N.eqb c 8239%N
  || N.eqb c 8287%N || N.eqb c 12288%N || N.eqb c 65279%N.

Fixpoint dropWhile (f : code_unit -> bool) (s : jsstring) : jsstring :=
  match s with
  | [] => []
  | c :: t => if f c then dropWhile f t else s
  end.

(** The string without its longest suffix of code units that satisfy [f]. *)
Fixpoint dropWhileEnd (f : code_unit -> bool) (s : jsstring) : jsstring :=
  match s with
  | [] => []
  | c :: t =>
      match dropWhileEnd f t with
      | [] => if f c then [] else [c]
      | t' => c :: t'
      end
  end.

(** The last code unit of a string, when there is one. *)
Fixpoint last_unit (s : jsstring) : option code_unit :=
  match s with
  | [] => None
  | [c] => Some c
  | _ :: t => last_unit t
  end.

(** [s.trim()] *)
Definition trim (s : jsstring) : jsstring :=
  dropWhileEnd is_space (dropWhile is_space s).

(** [s.startsWith(prefix)] *)
Fixpoint startsWith (prefix s : jsstring) : bool :=
  match prefix, s with
  | [], _ => true
  | _ :: _, [] => false
  | a :: prefix', b :: s' => N.eqb a b && startsWith prefix' s'
  end.

(** [s.charAt(i)]: the string of the one code unit at [i], or the empty
    string when [i] is out of range. *)
Definition charAt (s : jsstring) (i : nat) : jsstring :=
  match nth_error s i with
  | Some c => [c]
  | None => []
  end.

(** [s.slice(i)] for a non-negative [i]. *)
Definition slice (s : jsstring) (i : nat) : jsstring := skipn i s.

(** [s === t] *)
Definition str_eqb (s t : jsstring) : bool :=
  if list_eq_dec N.eq_dec s t then true else false.

(** [String.prototype.toUpperCase] on the ASCII range: a lower-case ASCII
    letter becomes its upper-case one.  Case mapping of other code units is
    not modelled (they are left as they are); [normalizePath] applies
    [toUpperCase] to ASCII letters only, see [normalizePath_upcase_ascii]. *)
Definition upper_unit (c : code_unit) : code_unit :=
  if is_lower c then (c - 32)%N else c.

Definition toUpperCase (s : jsstring) : jsstring := List.map upper_unit s.

(** [s.replace(/\//g, '\\')] *)
Definition slashes_to_backslashes (s : jsstring) : jsstring :=
  List.map (fun c => if is_slash c then CHAR_BACKWARD_SLASH else c) s.

(** [s.replace(/^Q|Q$/g, '')]: the global replace removes a match of
    the first alternative at index 0 and, scanning on from there, a match of
    the second alternative at the last index. *)
Definition drop_leading_quote (s : jsstring) : jsstring :=
  match s with
  | c :: t => if is_quote c then t else s
  | [] => []
  end.

Fixpoint drop_trailing_quote (s : jsstring) : jsstring :=
  match s with
  | [] => []
  | [c] => if is_quote c then [] else s
  | c :: t => c :: drop_trailing_quote t
  end.

Definition replace_edge_quotes (s : jsstring) : jsstring :=
  drop_trailing_quote (drop_leading_quote s).

(** [s.replace(/\/+/g, '/')]: a slash that is followed by a slash is
    dropped, so that each run of slashes leaves one. *)
Fixpoint collapse_slashes (s : jsstring) : jsstring :=
  match s with
  | [] => []
  | c :: t =>
      if is_slash c && match t with c' :: _ => is_slash c' | [] => false end
      then collapse_slashes t
      else c :: collapse_slashes t
  end.

(** [s.replace(/\/+$/, '')]: the leftmost match is the whole run of slashes
    at the end. *)
Definition remove_trailing_slashes (s : jsstring) : jsstring :=
  dropWhileEnd is_slash s.

(** [s.replace(/\\\\/g, '\\')]: from left to right, each pair of adjacent
    backslashes becomes one backslash; matches do not overlap. *)
Fixpoint collapse_backslash_pairs (s : jsstring) : jsstring :=
  match s with
  | a :: (b :: t) as q =>
      if is_backslash a && is_backslash b
      then CHAR_BACKWARD_SLASH :: collapse_backslash_pairs t
      else a :: collapse_backslash_pairs q
  | _ => s
  end.

(** [s.split('/')]: the segments between the slashes of [s]; there is
    always at least one segment. *)
Fixpoint split (p : jsstring) : list jsstring :=
  match p with
  | [] => [[]]
  | c :: t =>
      if is_slash c then [] :: split t
      else match split t with
           | s :: ss => (c :: s) :: ss
           | [] => [[c]]
           end
  end.

(** [segs.join('/')] *)
Fixpoint join_segments (segs : list jsstring) : jsstring :=
  match segs with
  | [] => []
  | [s] => s
  | s :: rest => s ++ CHAR_FORWARD_SLASH :: join_segments rest
  end.

(** ** The regular expressions of path-utils.ts *)

(** [/^\/mnt\/[a-z]\//i] *)
Definition match_wsl_mount_i (s : jsstring) : bool :=
  match s with
  | c0 :: c1 :: c2 :: c3 :: c4 :: c5 :: c6 :: _ =>
      is_slash c0 && eq_nocase 109%N c1 && eq_nocase 110%N c2 && eq_nocase 116%N c3
      && is_slash c4 && is_letter c5 && is_slash c6
  | _ => false
  end.

(** [/^\/[a-zA-Z]\//], and [/^\/[a-z]\//i], which matches the same strings *)
Definition match_unix_drive (s : jsstring) : bool :=
  match s with
  | c0 :: c1 :: c2 :: _ => is_slash c0 && is_letter c1 && is_slash c2
  | _ => false
  end.

(** [/^[a-zA-Z]:/] *)
Definition match_drive (s : jsstring) : bool :=
  match s with
  | c0 :: c1 :: _ => is_letter c0 && is_colon c1
  | _ => false
  end.

(** [/^[a-z]:/] *)
Definition match_lower_drive (s : jsstring) : bool :=
  match s with
  | c0 :: c1 :: _ => is_lower c0 && is_colon c1
  | _ => false
  end.

(** [/^[a-zA-Z]:|^\/mnt\/[a-z]\/|^\/[a-z]\//i] *)
Definition match_windows_like (s : jsstring) : bool :=
  match_drive s || match_wsl_mount_i s || match_unix_drive s.

(** ** path-utils.ts *)

Section PathUtils.

(** [String.prototype.toUpperCase] and [path.normalize] of the host. *)
Variable upcase : jsstring -> jsstring.
Variable path_normalize : jsstring -> jsstring.

Definition convertToWindowsPath (p : jsstring) : jsstring :=
  if startsWith (js "/mnt/") p then
    let driveLetter := upcase (charAt p 5) in
    let pathPart := slashes_to_backslashes (slice p 6) in
    driveLetter ++ js ":" ++ pathPart
  else if match_unix_drive p then
    let driveLetter := upcase (charAt p 1) in
    let pathPart := slashes_to_backslashes (slice p 2) in
    driveLetter ++ js ":" ++ pathPart
  else if match_drive p then
    slashes_to_backslashes p
  else p.

(** The first statement of [normalizePath]:
    [p = p.trim().replace(/^Q|Q$/g, '')]. *)
Definition stripWrapping (p : jsstring) : jsstring :=
  replace_edge_quotes (trim p).

(** The test [isUnixPath] of [normalizePath]. *)
Definition isUnixPath (p : jsstring) : bool :=
  startsWith (js "/") p
  && negb (match_wsl_mount_i p)
  && negb (match_unix_drive p).

Definition normalizePath (p : jsstring) : jsstring :=
  let p := stripWrapping p in
  if isUnixPath p then
    remove_trailing_slashes (collapse_slashes p)
  else
    let p := convertToWindowsPath p in
    let p := collapse_backslash_pairs p in
    let normalized := path_normalize p in
    if match_windows_like normalized then
      let result := slashes_to_backslashes normalized in
      if match_lower_drive result
      then upcase (charAt result 0) ++ slice result 1
      else result
    else normalized.

(** [os.homedir()] and [path.join] of the host. *)
Variable homedir : jsstring.
Variable path_join : jsstring -> jsstring -> jsstring.

Definition expandHome (filepath : jsstring) : jsstring :=
  if startsWith (js "~/") filepath || str_eqb filepath (js "~")
  then path_join homedir (slice filepath 1)
  else filepath.

End PathUtils.

(** ** The [path] module of Node.js on a POSIX host

    [path.posix] is not code of this repository.  Its [normalizeString]
    walks the path once and keeps the segments between slashes: an empty
    segment and [.] are skipped, [..] removes the segment before it when
    there is one that is not itself [..], and is kept only where the path
    may climb above its start ([allowAboveRoot]). *)
Module Posix.

Definition is_dot (s : jsstring) : bool := str_eqb s (js ".").
Definition is_dotdot (s : jsstring) : bool := str_eqb s (js "..").

(** One segment of the walk; [res] holds the segments kept so far, the
    last one first. *)
Definition step (allowAboveRoot : bool) (res : list jsstring)
    (seg : jsstring) : list jsstring :=
  match seg with
  | [] => res
  | _ =>
      if is_dot seg then res
      else if is_dotdot seg then
        match res with
        | top :: below =>
            if is_dotdot top
            then (if allowAboveRoot then seg :: res else res)
            else below
        | [] => if allowAboveRoot then [seg] else []
        end
      else seg :: res
  end.

Definition normalizeString (path : jsstring) (allowAboveRoot : bool)
    : jsstring :=
  join_segments (rev (fold_left (step allowAboveRoot) (split path) [])).

Definition ends_with_slash (p : jsstring) : bool :=
  match last_unit p with
  | Some c => is_slash c
  | None => false
  end.

(** [path.posix.normalize] *)
Definition normalize (path : jsstring) : jsstring :=
  match path with
  | [] => js "."
  | c :: _ =>
      let isAbsolute := is_slash c in
      let trailingSeparator := ends_with_slash path in
      let path := normalizeString path (negb isAbsolute) in
      match path with
      | [] =>
          if isAbsolute then js "/"
          else if trailingSeparator then js "./" else js "."
      | _ =>
          let path := if trailingSeparator then path ++ js "/" else path in
          if isAbsolute then js "/" ++ path else path
      end
  end.

(** [path.posix.join] of two arguments: the arguments that are not empty
    are put together with a slash between them, and normalized. *)
Definition join (a b : jsstring) : jsstring :=
  match a, b with
  | [], [] => js "."
  | [], _ => normalize b
  | _, [] => normalize a
  | _, _ => normalize (a ++ js "/" ++ b)
  end.

(** [path.posix.resolve] of one argument, [cwd] being [process.cwd()]
    (an absolute path): a relative path is taken from [cwd]. *)
Definition resolve (cwd : jsstring) (p : jsstring) : jsstring :=
  let resolvedPath :=
    match p with
    | [] => cwd ++ js "/"
    | c :: _ =>
        if is_slash c then p ++ js "/"
        else cwd ++ js "/" ++ p ++ js "/"
    end in
  js "/" ++ normalizeString resolvedPath false.

End Posix.

(** ** roots-utils.ts *)

(** A root of the protocol: a URI and an optional display name. *)
Record Root := { uri : jsstring; name : option jsstring }.

(** What a [catch] clause can receive: an [Error] object with its message,
    or any other value, of which only [String(value)] is looked at. *)
Inductive thrown :=
| ErrorObject (message : jsstring)
| OtherValue (asString : jsstring).

(** The part of [fs.Stats] the code reads. *)
Record Stats := { isDirectory : bool }.

(** How an asynchronous computation ends: its promise resolves with a
    value, or rejects with what was thrown. *)
Inductive completion (A : Type) :=
| Resolved (value : A)
| Rejected (error : thrown).

Arguments Resolved {A} value.
Arguments Rejected {A} error.

Section RootsUtils.

Variable upcase : jsstring -> jsstring.
Variable path_normalize : jsstring -> jsstring.
(** [path.resolve] of the host, with its working directory: the path it
    returns when it returns. *)
Variable path_resolve : jsstring -> jsstring.

(** The file system, with the working directory of the process, is a state
    of its own. *)
Variable World : Type.

(** [path.resolve] does not always return: it asks [process.cwd()] for the
    working directory when its argument needs one, and [process.cwd()] throws
    when that directory cannot be read.  [resolve_throws p w] is what
    [path.resolve(p)] throws in the state [w], if it throws. *)
Variable resolve_throws : jsstring -> World -> option thrown.

(** [fs.stat] reads the file system, may change it, and either fails with a
    thrown value or gives the [Stats]. *)
Variable fs_stat : jsstring -> World -> (thrown + Stats) * World.

(** The state the code runs in: the file system and the lines written with
    [console.error], oldest first. *)
Record State := { world : World; console : list jsstring }.

Definition M (A : Type) : Type := State -> completion A * State.

Definition ret {A} (a : A) : M A := fun st => (Resolved a, st).

Definition bind {A B} (m : M A) (k : A -> M B) : M B :=
  fun st =>
    match m st with
    | (Resolved a, st') => k a st'
    | (Rejected e, st') => (Rejected e, st')
    end.

(** [try { body } catch (error) { handler }] *)
Definition try_catch {A} (body : M A) (handler : thrown -> M A) : M A :=
  fun st =>
    match body st with
    | (Resolved a, st') => (Resolved a, st')
    | (Rejected e, st') => handler e st'
    end.

(** [await fs.stat(dir)] *)
Definition stat (dir : jsstring) : M Stats :=
  fun st =>
    match fs_stat dir (world st) with
    | (inl e, w) => (Rejected e, {| world := w; console := console st |})
    | (inr stats, w) => (Resolved stats, {| world := w; console := console st |})
    end.

(** [console.error(line)] *)
Definition console_error (line : jsstring) : M unit :=
  fun st =>
    (Resolved tt, {| world := world st; console := console st ++ [line] |}).

Notation "x <- m ;; k" := (bind m (fun x => k))
  (at level 61, m at next level, right associativity).

(** What [parseRootUri(uri)] returns, when [path.resolve] returns. *)
Definition parseRootUri (uri : jsstring) : jsstring :=
  let rawPath := if startsWith (js "file://") uri then slice uri 7 else uri in
  normalizePath upcase path_normalize (path_resolve rawPath).

(** [reason] is used when it is truthy: given and not the empty string. *)
Definition formatDirectoryError (dir : jsstring) (error : option thrown)
    (reason : option jsstring) : jsstring :=
  match reason with
  | Some ((_ :: _) as reason) => js "Skipping " ++ reason ++ js ": " ++ dir
  | _ =>
      let message :=
        match error with
        | Some (ErrorObject message) => message
        | Some (OtherValue asString) => asString
        | None => js "undefined"
        end in
      js "Skipping invalid directory: " ++ dir ++ js " due to error: "
        ++ message
  end.

(** The call [parseRootUri(uri)] as it runs: what [path.resolve] throws is
    thrown by the call, otherwise the call returns [parseRootUri uri]. *)
Definition call_parseRootUri (uri : jsstring) : M jsstring :=
  fun st =>
    let rawPath := if startsWith (js "file://") uri then slice uri 7 else uri in
    match resolve_throws rawPath (world st) with
    | Some e => (Rejected e, st)
    | None => (Resolved (parseRootUri uri), st)
    end.

(** The body of the [for ... of] loop, for one root; [validDirectories] is
    the array filled so far, and the array after this root is returned.  The
    call of [parseRootUri] comes before the [try] statement: what it throws
    is not caught. *)
Definition validate_root (root : Root) (validDirectories : list jsstring)
    : M (list jsstring) :=
  dir <- call_parseRootUri (uri root) ;;
  try_catch
    (stats <- stat dir ;;
     if isDirectory stats then
       ret (validDirectories ++ [dir])
     else
       _ <- console_error
              (formatDirectoryError dir None (Some (js "non-directory root"))) ;;
       ret validDirectories)
    (fun error =>
       _ <- console_error (formatDirectoryError dir (Some error) None) ;;
       ret validDirectories).

Fixpoint for_of_roots (roots : list Root) (validDirectories : list jsstring)
    : M (list jsstring) :=
  match roots with
  | [] => ret validDirectories
  | root :: rest =>
      validDirectories <- validate_root root validDirectories ;;
      for_of_roots rest validDirectories
  end.

Definition getValidRootDirectories (roots : list Root) : M (list jsstring) :=
  for_of_roots roots [].

End RootsUtils.

Arguments world {World} _.
Arguments console {World} _.
Arguments Build_State {World} _ _.
Arguments ret {World A} _ _.
Arguments bind {World A B} _ _ _.
Arguments try_catch {World A} _ _ _.
Arguments stat {World} _ _ _.
Arguments console_error {World} _ _.
Arguments call_parseRootUri _ _ _ {World} _ _ _.
Arguments validate_root _ _ _ {World} _ _ _ _ _.
Arguments for_of_roots _ _ _ {World} _ _ _ _ _.
Arguments getValidRootDirectories _ _ _ {World} _ _ _ _.

(** [path.resolve] of a POSIX host throws only what [process.cwd()] throws,
    and reads the working directory only for a path that does not begin
    with a slash; [cwd_error w] is what [process.cwd()] throws in the state
    [w], if it throws. *)
Definition posix_resolve_throws {World : Type}
    (cwd_error : World -> option thrown) (p : jsstring) (w : World)
    : option thrown :=
  match p with
  | c :: _ => if is_slash c then None else cwd_error w
  | [] => cwd_error w
  end.

(** ** What the specification says, in its own words

    The definitions of this part follow the specification's sentences, not
    the code; the theorems below compare the two. *)



(** ** Vocabulary of the statements *)

(** The first and the last code unit of a string are outside a class. *)
Definition ends_outside (f : code_unit -> bool) (s : jsstring) : bool :=
  match s with
  | [] => true
  | c :: _ =>
      negb (f c)
      && match last_unit s with Some l => negb (f l) | None => true end
  end.

(** Whitespace or a quote: what the first statement of [normalizePath]
    removes at the ends of its argument. *)
Definition is_wrapping (c : code_unit) : bool := is_space c || is_quote c.

(** [normalizePath] on a POSIX host. *)
Definition normalizePath_posix : jsstring -> jsstring :=
  normalizePath toUpperCase Posix.normalize.

(** The outcomes of the successive calls of [fs.stat] when the directories
    [dirs] are looked up one after the other from the file system [w], and
    the file system they leave. *)
Fixpoint stat_results {World : Type}
    (fs_stat : jsstring -> World -> (thrown + Stats) * World)
    (dirs : list jsstring) (w : World) : list (thrown + Stats) :=
  match dirs with
  | [] => []
  | dir :: rest =>
      let (r, w') := fs_stat dir w in r :: stat_results fs_stat rest w'
  end.

Fixpoint world_after {World : Type}
    (fs_stat : jsstring -> World -> (thrown + Stats) * World)
    (dirs : list jsstring) (w : World) : World :=
  match dirs with
  | [] => w
  | dir :: rest => world_after fs_stat rest (snd (fs_stat dir w))
  end.

(** The lookup succeeded and reported a directory. *)
Definition is_directory_result (r : thrown + Stats) : bool :=
  match r with
  | inr stats => isDirectory stats
  | inl _ => false
  end.

(** The line logged for a directory and the outcome of its lookup: none for
    a directory, otherwise the reason it is skipped for. *)
Definition skip_lines (dir_result : jsstring * (thrown + Stats))
    : list jsstring :=
  let (dir, r) := dir_result in
  match r with
  | inr stats =>
      if isDirectory stats then []
      else [js "Skipping non-directory root: " ++ dir]
  | inl (ErrorObject message) =>
      [js "Skipping invalid directory: " ++ dir ++ js " due to error: "
         ++ message]
  | inl (OtherValue asString) =>
      [js "Skipping invalid directory: " ++ dir ++ js " due to error: "
         ++ asString]
  end.

(** No code unit of the string is a slash. *)
Definition no_slash (s : jsstring) : bool :=
  forallb (fun c => negb (is_slash c)) s.

(** The input forms of the specification: [/mnt/c/rest], [/c/rest] and
    [c:rest], for a letter [c]. *)
Definition wsl_mount_path (c : code_unit) (rest : jsstring) : jsstring :=
  js "/mnt/" ++ c :: CHAR_FORWARD_SLASH :: rest.

Definition unix_drive_path (c : code_unit) (rest : jsstring) : jsstring :=
  CHAR_FORWARD_SLASH :: c :: CHAR_FORWARD_SLASH :: rest.

Definition drive_path (c : code_unit) (rest : jsstring) : jsstring :=
  c :: CHAR_COLON :: rest.

(** Section 8: the upper-cased letter, a colon, and the rest with every
    forward slash replaced by a backslash. *)
Definition windows_form_spec (c : code_unit) (rest : jsstring) : jsstring :=
  upper_unit c :: CHAR_COLON :: slashes_to_backslashes rest.

(** The empty string. *)
Definition is_empty (s : jsstring) : bool :=
  match s with
  | [] => true
  | _ :: _ => false
  end.

(** The segments of a path that are not empty. *)
Definition components (s : jsstring) : list jsstring :=
  filter (fun seg => negb (is_empty seg)) (split s).

(** The absolute path of some segments: each of them after one slash. *)
Definition absolute_of (segs : list jsstring) : jsstring :=
  List.concat (map (fun seg => CHAR_FORWARD_SLASH :: seg) segs).

(** Section 8: the same path with duplicate slashes collapsed and the
    trailing slash removed, that is, the absolute path of its non-empty
    segments. *)
Definition posix_form_spec (p : jsstring) : jsstring :=
  absolute_of (components p).

(** A segment that [path.normalize] keeps: not empty, without a slash, and
    not [.]. *)
Definition kept_segment (seg : jsstring) : bool :=
  negb (is_empty seg) && no_slash seg && negb (Posix.is_dot seg).

(** The segments [..] of a list all come before the other segments. *)
Fixpoint dotdots_first (segs : list jsstring) : bool :=
  match segs with
  | [] => true
  | seg :: rest =>
      if Posix.is_dotdot seg then dotdots_first rest
      else forallb (fun s => negb (Posix.is_dotdot s)) rest
  end.



(** What holds of the segments [normalizeString] has kept so far: each is a
    segment worth keeping, the [..] among them are the oldest ones, and
    there is none where the path may not climb above its start. *)
Definition kept_so_far (allow : bool) (res : list jsstring) : Prop :=
  Forall (fun seg => kept_segment seg = true) res
  /\ dotdots_first (rev res) = true
  /\ (allow = false -> Forall (fun seg => Posix.is_dotdot seg = false) res).

(** A segment of the path is [.] or [..]. *)
Definition has_dot_segment (r : jsstring) : bool :=
  existsb (fun seg => Posix.is_dot seg || Posix.is_dotdot seg) (split r).

(** A separator of either kind. *)
Definition is_separator (c : code_unit) : bool :=
  is_slash c || is_backslash c.

(** The string begins with a code unit of the class. *)
Definition head_is (f : code_unit -> bool) (s : jsstring) : bool :=
  match s with
  | c :: _ => f c
  | [] => false
  end.

(** No two, and no three, code units of a class in a row. *)
Fixpoint no_run2 (f : code_unit -> bool) (s : jsstring) : bool :=
  match s with
  | [] => true
  | a :: t => negb (f a && head_is f t) && no_run2 f t
  end.

Fixpoint no_run3 (f : code_unit -> bool) (s : jsstring) : bool :=
  match s with
  | [] => true
  | a :: t =>
      negb (f a && head_is f t && head_is f (tl t)) && no_run3 f t
  end.

(** The string does not end with whitespace or with a quote. *)
Definition ends_clean (s : jsstring) : bool :=
  match last_unit s with
  | Some c => negb (is_wrapping c)
  | None => true
  end.

(** Its trailing slashes set aside, the path does not end with whitespace
    or with a quote. *)
Definition last_nonslash_clean (p : jsstring) : bool :=
  ends_clean (remove_trailing_slashes p).

(** [/mnt/c/...] as [convertToWindowsPath] and the test of the Unix paths
    both see it: the text [/mnt/] in lower case, a letter and a slash. *)
Definition match_wsl_mount (p : jsstring) : bool :=
  startsWith (js "/mnt/") p && match_wsl_mount_i p.

(** The string ends with a slash, or at least not with whitespace or with
    a quote. *)
Definition ends_slash_or_clean (s : jsstring) : bool :=
  match last_unit s with
  | Some c => is_slash c || negb (is_wrapping c)
  | None => true
  end.


(** Of the directories looked up one after the other, those whose lookup
    succeeded and reported a directory, in their order; and the lines logged
    for the others. *)
Definition surviving_directories {World : Type}
    (fs_stat : jsstring -> World -> (thrown + Stats) * World)
    (dirs : list jsstring) (w : World) : list jsstring :=
  map fst
    (filter (fun dr => is_directory_result (snd dr))
       (combine dirs (stat_results fs_stat dirs w))).

Definition logged_lines {World : Type}
    (fs_stat : jsstring -> World -> (thrown + Stats) * World)
    (dirs : list jsstring) (w : World) : list jsstring :=
  flat_map skip_lines (combine dirs (stat_results fs_stat dirs w)).

(** ** The example of section 8 for the validation of roots *)

(** A file system that never changes: [/tmp/ok] is a directory,
    [/tmp/ok/afile] is a file, and nothing else exists. *)
Definition example_stat (dir : jsstring) (w : unit)
    : (thrown + Stats) * unit :=
  if str_eqb dir (js "/tmp/ok") then (inr {| isDirectory := true |}, w)
  else if str_eqb dir (js "/tmp/ok/afile")
       then (inr {| isDirectory := false |}, w)
       else (inl (ErrorObject (js "ENOENT: no such file or directory")), w).

Definition example_roots : list Root :=
  [ {| uri := js "file:///tmp/ok"; name := None |};
    {| uri := js "/tmp/missing"; name := None |};
    {| uri := js "/tmp/ok/afile"; name := Some (js "a file") |} ].

(** ** The other servers *)

(** [oracle/index.ts], tools [query] and [explain]: the argument [sql] when
    it is a string, without one final semicolon and the whitespace after
    it, [sql.replace(/;\s*$/, '')]; the class [\s] is the whitespace that
    [trim] removes.  The leftmost match is the first semicolon that only
    whitespace follows. *)
Definition is_semicolon (c : code_unit) : bool := N.eqb c 59%N.

Fixpoint strip_final_semicolon (sql : jsstring) : jsstring :=
  match sql with
  | [] => []
  | c :: t =>
      if is_semicolon c && forallb is_space t then []
      else c :: strip_final_semicolon t
  end.

(** The path a root URI stands for: [uri.slice(7)] after [file://]. *)
Definition raw_path_of (uri : jsstring) : jsstring :=
  if startsWith (js "file://") uri then slice uri 7 else uri.



(** A working directory that cannot be read, as after it has been removed:
    what [process.cwd()] throws. *)
Definition cwd_unreadable (w : unit) : option thrown :=
  Some (ErrorObject (js "ENOENT: no such file or directory, uv_cwd")).

(** A working directory that can be read. *)
Definition cwd_readable (w : unit) : option thrown := None.




(** * Properties *)

(** ** Code units *)

Ltac unfold_units :=
  unfold is_letter, upper_unit in *;
  unfold is_slash, is_backslash, is_colon, is_quote, is_lower, is_upper,
    is_space, eq_nocase, CHAR_FORWARD_SLASH,
    CHAR_BACKWARD_SLASH, CHAR_COLON in *.

(** Turns boolean tests on code units into arithmetic and lets [lia] decide. *)
Ltac units :=
  intros; unfold_units; unfold code_unit in *;
  repeat match goal with
         | |- _ = false => apply Bool.not_true_iff_false; intro
         | H : _ = false |- _ => apply Bool.not_true_iff_false in H
         end;
  repeat rewrite ?Bool.orb_true_iff, ?Bool.andb_true_iff, ?Bool.negb_true_iff,
    ?N.eqb_eq, ?N.leb_le in *;
  repeat match goal with
         | H : _ = false |- _ => apply Bool.not_true_iff_false in H
         end;
  repeat rewrite ?Bool.orb_true_iff, ?Bool.andb_true_iff, ?N.eqb_eq, ?N.leb_le in *;
  lia.

Lemma letter_not_slash c : is_letter c = true -> is_slash c = false.
Proof. units. Qed.

Lemma letter_not_backslash c : is_letter c = true -> is_backslash c = false.
Proof. units. Qed.

Lemma letter_not_colon c : is_letter c = true -> is_colon c = false.
Proof. units. Qed.

Lemma letter_not_quote c : is_letter c = true -> is_quote c = false.
Proof. units. Qed.

Lemma letter_not_space c : is_letter c = true -> is_space c = false.
Proof. units. Qed.


Lemma upper_unit_letter c : is_letter c = true -> is_letter (upper_unit c) = true.
Proof.
  intro H. unfold upper_unit. destruct (is_lower c) eqn:L; [|exact H].
  units.
Qed.

Lemma upper_unit_not_lower c : is_letter c = true -> is_lower (upper_unit c) = false.
Proof.
  intro H. unfold upper_unit. destruct (is_lower c) eqn:L.
  - units.
  - exact L.
Qed.

Lemma upper_unit_upper c : is_lower c = false -> upper_unit c = c.
Proof. intro H. unfold upper_unit. now rewrite H. Qed.

(** ** Trimming and unquoting *)

Lemma dropWhile_head f c t : f c = false -> dropWhile f (c :: t) = c :: t.
Proof. intro H. simpl. now rewrite H. Qed.

Lemma last_unit_cons c d t : last_unit (c :: d :: t) = last_unit (d :: t).
Proof. reflexivity. Qed.


Lemma last_unit_None s : last_unit s = None -> s = [].
Proof.
  induction s as [|a s IH]; [reflexivity|].
  destruct s as [|b s]; [discriminate|].
  rewrite last_unit_cons. intro H. apply IH in H. discriminate.
Qed.

Lemma last_unit_step c (s : jsstring) :
  last_unit (c :: s)
  = match last_unit s with Some l => Some l | None => Some c end.
Proof.
  destruct s as [|d s]; [reflexivity|]. rewrite last_unit_cons.
  destruct (last_unit (d :: s)) eqn:E; [reflexivity|].
  apply last_unit_None in E. discriminate.
Qed.

Lemma last_unit_map (f : code_unit -> code_unit) (s : jsstring) :
  last_unit (map f s) = option_map f (last_unit s).
Proof.
  induction s as [|c s IH]; [reflexivity|].
  simpl map. rewrite !last_unit_step, IH.
  now destruct (last_unit s).
Qed.

(** A string that does not end with a code unit of the class loses nothing. *)
Lemma dropWhileEnd_id f s :
  match last_unit s with Some c => f c = false | None => True end ->
  dropWhileEnd f s = s.
Proof.
  induction s as [|a s IH]; [reflexivity|].
  destruct s as [|b s].
  - simpl. intro H. now rewrite H.
  - rewrite last_unit_cons. intro H. specialize (IH H).
    change (dropWhileEnd f (a :: b :: s))
      with (match dropWhileEnd f (b :: s) with
            | [] => if f a then [] else [a]
            | t' => a :: t'
            end).
    now rewrite IH.
Qed.


Lemma drop_trailing_quote_id s :
  match last_unit s with Some c => is_quote c = false | None => True end ->
  drop_trailing_quote s = s.
Proof.
  induction s as [|a s IH]; [reflexivity|].
  destruct s as [|b s].
  - simpl. intro H. now rewrite H.
  - rewrite last_unit_cons. intro H. specialize (IH H).
    change (drop_trailing_quote (a :: b :: s))
      with (a :: drop_trailing_quote (b :: s)).
    now rewrite IH.
Qed.


(** A string whose first and last code units are neither whitespace nor
    quotes is left as it is by the first statement of [normalizePath]. *)
Lemma stripWrapping_id s :
  ends_outside is_wrapping s = true -> stripWrapping s = s.
Proof.
  unfold stripWrapping, replace_edge_quotes, trim, ends_outside, is_wrapping.
  destruct s as [|c t]; [reflexivity|].
  rewrite Bool.andb_true_iff, Bool.negb_true_iff, Bool.orb_false_iff.
  intros [[Hs Hq] Hl].
  rewrite (dropWhile_head _ _ t Hs).
  assert (Hl' : match last_unit (c :: t) with
                | Some l => is_space l = false /\ is_quote l = false
                | None => True
                end).
  { destruct (last_unit (c :: t)); [|exact I].
    now rewrite Bool.negb_true_iff, Bool.orb_false_iff in Hl. }
  rewrite dropWhileEnd_id.
  2:{ destruct (last_unit (c :: t)); [tauto|exact I]. }
  unfold drop_leading_quote. rewrite Hq.
  apply drop_trailing_quote_id.
  destruct (last_unit (c :: t)); [tauto|exact I].
Qed.












(** ** The bare root, the empty path *)

(** C2.  The specification wants the bare root [/] to normalize to [/].
    The code takes the branch of the Unix paths, where the removal of the
    trailing slashes leaves nothing of it: on every host, [normalizePath]
    of [/] is the empty string. *)
Theorem normalizePath_bare_root_is_empty :
  forall upcase path_normalize : jsstring -> jsstring,
    normalizePath upcase path_normalize (js "/") = js "".
Proof. intros. reflexivity. Qed.




(** ** The stripping step *)




(** ** Root validation *)

Section RootValidation.

Variables upcase path_normalize path_resolve : jsstring -> jsstring.
Variable World : Type.
Variable resolve_throws : jsstring -> World -> option thrown.
Variable fs_stat : jsstring -> World -> (thrown + Stats) * World.




(** The loop over a list in two parts: the second part runs from what the
    first part leaves, unless the first part has thrown. *)
Lemma for_of_roots_app (roots1 roots2 : list Root) :
  forall (acc : list jsstring) (st : State World),
    for_of_roots upcase path_normalize path_resolve resolve_throws fs_stat
      (roots1 ++ roots2) acc st
    = match for_of_roots upcase path_normalize path_resolve resolve_throws
              fs_stat roots1 acc st with
      | (Resolved dirs1, st1) =>
          for_of_roots upcase path_normalize path_resolve resolve_throws
            fs_stat roots2 dirs1 st1
      | (Rejected e, st1) => (Rejected e, st1)
      end.
Proof.
  induction roots1 as [|root rest IH]; intros acc st; [reflexivity|].
  simpl. unfold bind.
  destruct (validate_root upcase path_normalize path_resolve resolve_throws
              fs_stat root acc st) as [[dirs|e] st1]; [apply IH|reflexivity].
Qed.



End RootValidation.



(** ** Segments, and [path.normalize] on a POSIX host *)

Lemma split_cons (p : jsstring) : exists s ss, split p = s :: ss.
Proof.
  induction p as [|c t [s [ss IH]]]; simpl.
  - now exists [], [].
  - destruct (is_slash c).
    + now exists [], (split t).
    + rewrite IH. now exists (c :: s), ss.
Qed.

Lemma split_app_slash (a b : jsstring) :
  split (a ++ CHAR_FORWARD_SLASH :: b) = split a ++ split b.
Proof.
  induction a as [|c a IH]; simpl.
  - reflexivity.
  - destruct (is_slash c).
    + now rewrite IH.
    + rewrite IH. destruct (split_cons a) as [s [ss E]]. now rewrite E.
Qed.

Lemma split_no_slash (s : jsstring) : no_slash s = true -> split s = [s].
Proof.
  induction s as [|c t IH]; simpl; [reflexivity|].
  rewrite Bool.andb_true_iff, Bool.negb_true_iff. intros [Hc Ht].
  now rewrite Hc, IH.
Qed.

Lemma last_unit_app_cons (x : jsstring) c (s : jsstring) :
  last_unit (x ++ c :: s) = last_unit (c :: s).
Proof.
  induction x as [|a x IH]; [reflexivity|].
  simpl app. destruct (x ++ c :: s) eqn:E.
  - destruct x; discriminate.
  - rewrite last_unit_cons. exact IH.
Qed.

Lemma last_unit_no_slash (s : jsstring) :
  no_slash s = true ->
  match last_unit s with Some c => is_slash c = false | None => True end.
Proof.
  induction s as [|a s IH]; [exact (fun _ => I)|].
  simpl no_slash. rewrite Bool.andb_true_iff, Bool.negb_true_iff.
  intros [Ha Hs]. destruct s as [|b s]; [exact Ha|].
  rewrite last_unit_cons. now apply IH.
Qed.

(** A path without slashes is one segment, which [path.normalize] returns
    as it is. *)
Lemma posix_normalize_no_slash (s : jsstring) :
  s <> [] -> no_slash s = true -> Posix.normalize s = s.
Proof.
  intros Hne Hs. destruct s as [|c t]; [congruence|].
  unfold Posix.normalize, Posix.normalizeString, Posix.ends_with_slash.
  rewrite (split_no_slash _ Hs).
  pose proof (last_unit_no_slash _ Hs) as Hl.
  assert (Hc : is_slash c = false).
  { simpl in Hs. rewrite Bool.andb_true_iff, Bool.negb_true_iff in Hs. tauto. }
  rewrite Hc.
  destruct (last_unit (c :: t)) as [l|]; [rewrite Hl|]; simpl;
    unfold Posix.is_dot, Posix.is_dotdot, str_eqb;
    destruct (list_eq_dec N.eq_dec (c :: t) (js ".")) as [E|_];
    try (rewrite E; reflexivity);
    destruct (list_eq_dec N.eq_dec (c :: t) (js "..")) as [E|_];
    try (rewrite E; reflexivity); reflexivity.
Qed.

Lemma step_empty_segment (allow : bool) (res : list jsstring) :
  Posix.step allow res [] = res.
Proof. reflexivity. Qed.

(** A doubled slash between two parts of a path is the same to
    [normalizeString] as a single one. *)
Lemma normalizeString_double_slash (a b : jsstring) (allow : bool) :
  Posix.normalizeString (a ++ js "/" ++ CHAR_FORWARD_SLASH :: b) allow
  = Posix.normalizeString (a ++ js "/" ++ b) allow.
Proof.
  unfold Posix.normalizeString. change (js "/") with [CHAR_FORWARD_SLASH].
  simpl app. rewrite !split_app_slash. simpl split.
  rewrite !fold_left_app. reflexivity.
Qed.

Lemma posix_normalize_cons c (t : jsstring) :
  Posix.normalize (c :: t)
  = let res := Posix.normalizeString (c :: t) (negb (is_slash c)) in
    match res with
    | [] =>
        if is_slash c then js "/"
        else if Posix.ends_with_slash (c :: t) then js "./" else js "."
    | _ =>
        let path :=
          if Posix.ends_with_slash (c :: t) then res ++ js "/" else res in
        if is_slash c then js "/" ++ path else path
    end.
Proof. reflexivity. Qed.

Lemma ends_with_slash_app_cons (x : jsstring) d (b : jsstring) :
  Posix.ends_with_slash (x ++ d :: b) = Posix.ends_with_slash (d :: b).
Proof. unfold Posix.ends_with_slash. now rewrite last_unit_app_cons. Qed.

Lemma posix_normalize_double_slash (a b : jsstring) :
  a <> [] -> b <> [] ->
  Posix.normalize (a ++ js "/" ++ CHAR_FORWARD_SLASH :: b)
  = Posix.normalize (a ++ js "/" ++ b).
Proof.
  intros Ha Hb. destruct a as [|c a]; [congruence|].
  destruct b as [|d b]; [congruence|].
  pose proof (normalizeString_double_slash (c :: a) (d :: b)) as E1.
  assert (E2 : Posix.ends_with_slash
                 ((c :: a) ++ js "/" ++ CHAR_FORWARD_SLASH :: d :: b)
               = Posix.ends_with_slash ((c :: a) ++ js "/" ++ d :: b)).
  { rewrite !app_assoc. now rewrite !ends_with_slash_app_cons. }
  revert E1 E2.
  change ((c :: a) ++ js "/" ++ CHAR_FORWARD_SLASH :: d :: b)
    with (c :: (a ++ js "/" ++ CHAR_FORWARD_SLASH :: d :: b)).
  change ((c :: a) ++ js "/" ++ d :: b) with (c :: (a ++ js "/" ++ d :: b)).
  intros E1 E2. rewrite !posix_normalize_cons. now rewrite E1, E2.
Qed.

(** ** [expandHome] *)

Lemma startsWith_app (prefix s : jsstring) :
  startsWith prefix (prefix ++ s) = true.
Proof.
  induction prefix as [|a prefix IH]; [reflexivity|].
  simpl. now rewrite N.eqb_refl.
Qed.

Lemma str_eqb_eq (s t : jsstring) : str_eqb s t = true <-> s = t.
Proof.
  unfold str_eqb. destruct (list_eq_dec N.eq_dec s t); split; congruence.
Qed.

Lemma str_eqb_neq (s t : jsstring) : s <> t -> str_eqb s t = false.
Proof.
  unfold str_eqb. destruct (list_eq_dec N.eq_dec s t); congruence.
Qed.

(** Two slashes after a path in normal form: [path.normalize] gives the
    path back, with one slash after it when it had none. *)
Lemma posix_normalize_two_slashes_after (x : jsstring) :
  x <> [] ->
  Posix.normalize x = x ->
  Posix.normalize (x ++ js "/" ++ js "/")
  = if Posix.ends_with_slash x then x else x ++ js "/".
Proof.
  intros Hx H. destruct x as [|c t]; [congruence|].
  assert (E1 : forall allow,
             Posix.normalizeString ((c :: t) ++ js "/" ++ js "/") allow
             = Posix.normalizeString (c :: t) allow).
  { intro allow. unfold Posix.normalizeString.
    change (js "/") with [CHAR_FORWARD_SLASH]. simpl app.
    change (c :: t ++ [CHAR_FORWARD_SLASH; CHAR_FORWARD_SLASH])
      with ((c :: t) ++ CHAR_FORWARD_SLASH :: [CHAR_FORWARD_SLASH]).
    rewrite split_app_slash. rewrite fold_left_app. reflexivity. }
  assert (E2 : Posix.ends_with_slash ((c :: t) ++ js "/" ++ js "/") = true).
  { change (js "/" ++ js "/")
      with (CHAR_FORWARD_SLASH :: [CHAR_FORWARD_SLASH]).
    now rewrite ends_with_slash_app_cons. }
  revert E1 E2.
  change ((c :: t) ++ js "/" ++ js "/") with (c :: (t ++ js "/" ++ js "/")).
  intros E1 E2.
  rewrite posix_normalize_cons in H |- *. rewrite E1, E2.
  cbv zeta in H |- *. revert H.
  destruct (Posix.ends_with_slash (c :: t)) eqn:Ee;
    destruct (is_slash c);
    destruct (Posix.normalizeString (c :: t) _) as [|r0 r];
    intro H; rewrite <- H in Ee |- *;
    first [reflexivity | discriminate Ee].
Qed.

(** C9, as the code has it.  [expandHome] hands the home directory and the
    input without its tilde to [path.join], for [~] and for every input
    that starts with [~/]; every other input is returned as it is.  On a
    POSIX host this gives the home directory itself for [~] when the
    home directory is in normal form, and the join of the home directory
    with [s] for the input [~/s] when [s] is not empty; for the input [~/]
    and a home directory in normal form, it gives the home directory when
    this ends with a slash, and the home directory with a slash after it
    otherwise. *)
Theorem expandHome_joins_home_and_tail :
  forall (home : jsstring) (path_join : jsstring -> jsstring -> jsstring),
    expandHome home path_join (js "~") = path_join home (js "")
    /\ (forall s : jsstring,
          expandHome home path_join (js "~/" ++ s)
          = path_join home (js "/" ++ s))
    /\ (forall p : jsstring,
          startsWith (js "~/") p = false -> p <> js "~" ->
          expandHome home path_join p = p)
    /\ (home <> js "" -> Posix.normalize home = home ->
        expandHome home Posix.join (js "~") = home)
    /\ (forall s : jsstring,
          home <> js "" -> s <> js "" ->
          expandHome home Posix.join (js "~/" ++ s) = Posix.join home s)
    /\ (home <> js "" -> Posix.normalize home = home ->
        expandHome home Posix.join (js "~/")
        = if Posix.ends_with_slash home then home else home ++ js "/").
Proof.
  intros home path_join.
  assert (G : forall pj s, expandHome home pj (js "~/" ++ s)
                           = pj home (js "/" ++ s)).
  { intros pj s. unfold expandHome. rewrite startsWith_app. reflexivity. }
  split; [reflexivity|]. split; [apply G|]. split; [|split; [|split]].
  - intros p Hp Hne. unfold expandHome. rewrite Hp.
    now rewrite (str_eqb_neq _ _ Hne).
  - intros Hh Hn. change (expandHome home Posix.join (js "~"))
      with (Posix.join home (js "")).
    destruct home as [|c t]; [now elim Hh|]. exact Hn.
  - intros s Hh Hs. rewrite G.
    destruct home as [|c t]; [now elim Hh|].
    destruct s as [|d s]; [now elim Hs|].
    change (Posix.join (c :: t) (js "/" ++ d :: s))
      with (Posix.normalize ((c :: t) ++ js "/" ++ CHAR_FORWARD_SLASH :: d :: s)).
    change (Posix.join (c :: t) (d :: s))
      with (Posix.normalize ((c :: t) ++ js "/" ++ d :: s)).
    apply posix_normalize_double_slash; discriminate.
  - intros Hh Hn.
    change (expandHome home Posix.join (js "~/"))
      with (Posix.join home (js "/")).
    rewrite <- (posix_normalize_two_slashes_after home Hh Hn).
    destruct home as [|c t]; [now elim Hh|]. reflexivity.
Qed.

Lemma expandHome_joins_home_and_tail_witness :
  let home := js "/home/u" in
  home <> js ""
  /\ Posix.normalize home = home
  /\ Posix.normalize (js "/") = js "/"
  /\ expandHome home Posix.join (js "~") = home
  /\ expandHome home Posix.join (js "~/" ++ js "docs")
     = Posix.join home (js "docs")
  /\ expandHome home Posix.join (js "/abs/path") = js "/abs/path"
  /\ expandHome home Posix.join (js "~/") = js "/home/u/"
  /\ expandHome (js "/") Posix.join (js "~/") = js "/".
Proof.
  intro home.
  destruct (expandHome_joins_home_and_tail home Posix.join)
    as [_ [_ [H3 [H4 [H5 H6]]]]].
  split; [discriminate|]. split; [reflexivity|]. split; [reflexivity|].
  split; [|split; [|split; [|split]]].
  - apply H4; [discriminate|reflexivity].
  - apply H5; discriminate.
  - apply H3; [reflexivity|discriminate].
  - apply H6; [discriminate|reflexivity].
  - exact (proj2 (proj2 (proj2 (proj2 (proj2
             (expandHome_joins_home_and_tail (js "/") Posix.join)))))
             ltac:(discriminate) eq_refl).
Defined.

(** C9 as the specification words it fails at the input [~/], which is the
    home directory with a slash after it and not its join with the empty
    suffix, and at [~] for a home directory that is not in normal form. *)
Lemma expandHome_is_not_always_the_join :
  expandHome (js "/home/u") Posix.join (js "~/" ++ js "") = js "/home/u/"
  /\ Posix.join (js "/home/u") (js "") = js "/home/u"
  /\ expandHome (js "/home/u") Posix.join (js "~/" ++ js "")
     <> Posix.join (js "/home/u") (js "")
  /\ expandHome (js "/home//u") Posix.join (js "~") <> js "/home//u".
Proof. repeat split; discriminate. Qed.

(** ** Slashes and backslashes *)

(** Induction that follows [collapse_backslash_pairs]: two code units at a
    time, or one. *)
Lemma pairs_ind (P : jsstring -> Prop) :
  P [] -> (forall a, P [a]) ->
  (forall a b t, P t -> P (b :: t) -> P (a :: b :: t)) ->
  forall s, P s.
Proof.
  intros H0 H1 H2 s.
  assert (H : P s /\ forall a, P (a :: s)).
  { induction s as [|b t [IHt IHc]]; split; auto. }
  exact (proj1 H).
Qed.

Lemma collapse_backslash_pairs_cons a (s : jsstring) :
  is_backslash a = false ->
  collapse_backslash_pairs (a :: s) = a :: collapse_backslash_pairs s.
Proof. intro H. destruct s as [|b t]; simpl; now rewrite ?H. Qed.

Lemma no_slash_backslashes (s : jsstring) :
  no_slash (slashes_to_backslashes s) = true.
Proof.
  induction s as [|c t IH]; [reflexivity|].
  simpl. rewrite IH. destruct (is_slash c) eqn:E; [reflexivity|].
  now rewrite E.
Qed.

Lemma slashes_to_backslashes_id (s : jsstring) :
  no_slash s = true -> slashes_to_backslashes s = s.
Proof.
  induction s as [|c t IH]; [reflexivity|].
  simpl. rewrite Bool.andb_true_iff, Bool.negb_true_iff. intros [Hc Ht].
  now rewrite Hc, IH.
Qed.

Lemma no_slash_collapse_backslash_pairs (s : jsstring) :
  no_slash s = true -> no_slash (collapse_backslash_pairs s) = true.
Proof.
  induction s as [|a|a b t IHt IHc] using pairs_ind; try (intro H; exact H).
  change (collapse_backslash_pairs (a :: b :: t))
    with (if is_backslash a && is_backslash b
          then CHAR_BACKWARD_SLASH :: collapse_backslash_pairs t
          else a :: collapse_backslash_pairs (b :: t)).
  simpl no_slash. rewrite !Bool.andb_true_iff. intros [Ha [Hb Ht]].
  destruct (is_backslash a && is_backslash b).
  - simpl. now apply IHt.
  - simpl no_slash. rewrite Ha. simpl. apply IHc. simpl. now rewrite Hb, Ht.
Qed.

Lemma upper_unit_idempotent c :
  is_letter c = true -> upper_unit (upper_unit c) = upper_unit c.
Proof. intro H. apply upper_unit_upper. now apply upper_unit_not_lower. Qed.

(** ** The drive forms on a POSIX host *)

(** Once [convertToWindowsPath] has produced a drive letter, a colon and a
    rest without forward slashes, the remaining steps collapse the pairs of
    backslashes and put the drive letter in upper case: on a POSIX host
    [path.normalize] sees a single segment and leaves it alone. *)
Lemma normalizePath_posix_converted (p : jsstring) c (x : jsstring) :
  stripWrapping p = p ->
  isUnixPath p = false ->
  convertToWindowsPath toUpperCase p = c :: CHAR_COLON :: x ->
  is_letter c = true ->
  no_slash x = true ->
  normalizePath_posix p
  = upper_unit c :: CHAR_COLON :: collapse_backslash_pairs x.
Proof.
  intros Hs Hu Hc Hl Hx. unfold normalizePath_posix, normalizePath.
  rewrite Hs, Hu, Hc.
  rewrite (collapse_backslash_pairs_cons c) by now apply letter_not_backslash.
  rewrite (collapse_backslash_pairs_cons CHAR_COLON) by reflexivity.
  set (y := collapse_backslash_pairs x).
  assert (Hy : no_slash (c :: CHAR_COLON :: y) = true).
  { simpl. rewrite (letter_not_slash c Hl). simpl.
    now apply no_slash_collapse_backslash_pairs. }
  rewrite posix_normalize_no_slash by (discriminate || exact Hy).
  rewrite (slashes_to_backslashes_id _ Hy).
  unfold match_windows_like, match_drive. rewrite Hl. simpl orb.
  cbv iota. unfold match_lower_drive.
  destruct (is_lower c) eqn:L.
  - reflexivity.
  - simpl. now rewrite (upper_unit_upper c L).
Qed.

Lemma match_wsl_mount_i_wsl c (rest : jsstring) :
  is_letter c = true -> match_wsl_mount_i (wsl_mount_path c rest) = true.
Proof. intro H. cbv - [is_letter]. now rewrite H. Qed.

Lemma match_unix_drive_unix c (rest : jsstring) :
  is_letter c = true -> match_unix_drive (unix_drive_path c rest) = true.
Proof. intro H. cbv - [is_letter]. now rewrite H. Qed.

Lemma match_drive_drive c (rest : jsstring) :
  is_letter c = true -> match_drive (drive_path c rest) = true.
Proof. intro H. cbv - [is_letter]. now rewrite H. Qed.

(** A prefix that begins with a slash is not the prefix of a string that
    begins with a letter. *)
Lemma startsWith_letter (prefix : jsstring) c (s : jsstring) :
  startsWith (js "/") prefix = true ->
  is_letter c = true ->
  startsWith prefix (c :: s) = false.
Proof.
  destruct prefix as [|a prefix]; [discriminate|].
  cbn - [N.eqb]. rewrite Bool.andb_true_r. intros Ha Hl.
  apply N.eqb_eq in Ha. subst a.
  change (N.eqb 47 c && startsWith prefix s = false).
  destruct (N.eqb_spec 47 c) as [E|_]; [|reflexivity].
  subst c. discriminate.
Qed.

Lemma match_unix_drive_letter c (s : jsstring) :
  is_letter c = true -> match_unix_drive (c :: s) = false.
Proof.
  intro Hl. unfold match_unix_drive.
  destruct s as [|c1 [|c2 s]]; try reflexivity.
  now rewrite (letter_not_slash c Hl).
Qed.

Lemma match_wsl_mount_i_letter c (s : jsstring) :
  is_letter c = true -> match_wsl_mount_i (c :: s) = false.
Proof.
  intro Hl. unfold match_wsl_mount_i.
  destruct s as [|c1 [|c2 [|c3 [|c4 [|c5 [|c6 s]]]]]]; try reflexivity.
  now rewrite (letter_not_slash c Hl).
Qed.

Lemma startsWith_mnt_unix_drive c (rest : jsstring) :
  startsWith (js "/mnt/") (unix_drive_path c rest) = false.
Proof.
  unfold unix_drive_path. cbn - [N.eqb].
  change (N.eqb 110 CHAR_FORWARD_SLASH) with false.
  now rewrite Bool.andb_false_r.
Qed.

(** No path has both the shape [/mnt/...] and the shape [/c/...]. *)
Lemma mount_is_not_unix_drive (p : jsstring) :
  startsWith (js "/mnt/") p = true -> match_unix_drive p = false.
Proof.
  destruct p as [|c0 [|c1 [|c2 p]]]; try reflexivity.
  cbn - [is_letter N.eqb]. rewrite !Bool.andb_true_iff.
  intros [_ [_ [H _]]]. apply N.eqb_eq in H. subst c2.
  now rewrite Bool.andb_false_r.
Qed.

Lemma windows_form_spec_collapse c (tail : jsstring) :
  is_letter c = true ->
  collapse_backslash_pairs (windows_form_spec c tail)
  = upper_unit c :: CHAR_COLON
      :: collapse_backslash_pairs (slashes_to_backslashes tail).
Proof.
  intro H. unfold windows_form_spec.
  rewrite collapse_backslash_pairs_cons
    by (apply letter_not_backslash; now apply upper_unit_letter).
  now rewrite collapse_backslash_pairs_cons by reflexivity.
Qed.

(** The two Unix spellings of a drive, normalized on a POSIX host. *)
Lemma mount_form_normalized c (rest : jsstring) :
  is_letter c = true ->
  stripWrapping (wsl_mount_path c rest) = wsl_mount_path c rest ->
  normalizePath_posix (wsl_mount_path c rest)
  = upper_unit c :: CHAR_COLON
      :: collapse_backslash_pairs
           (slashes_to_backslashes (CHAR_FORWARD_SLASH :: rest)).
Proof.
  intros Hl Hs. rewrite <- (upper_unit_idempotent c Hl).
  apply normalizePath_posix_converted.
  - exact Hs.
  - unfold isUnixPath. rewrite (match_wsl_mount_i_wsl c rest Hl).
    now rewrite Bool.andb_false_r.
  - reflexivity.
  - now apply upper_unit_letter.
  - apply no_slash_backslashes.
Qed.

Lemma unix_drive_form_normalized c (rest : jsstring) :
  is_letter c = true ->
  stripWrapping (unix_drive_path c rest) = unix_drive_path c rest ->
  normalizePath_posix (unix_drive_path c rest)
  = upper_unit c :: CHAR_COLON
      :: collapse_backslash_pairs
           (slashes_to_backslashes (CHAR_FORWARD_SLASH :: rest)).
Proof.
  intros Hl Hs. rewrite <- (upper_unit_idempotent c Hl).
  apply normalizePath_posix_converted.
  - exact Hs.
  - unfold isUnixPath. rewrite (match_unix_drive_unix c rest Hl).
    now rewrite Bool.andb_false_r.
  - unfold convertToWindowsPath.
    rewrite (match_unix_drive_unix c rest Hl).
    rewrite startsWith_mnt_unix_drive. reflexivity.
  - now apply upper_unit_letter.
  - apply no_slash_backslashes.
Qed.

(** The Windows spelling of a drive, normalized on a POSIX host. *)
Lemma drive_form_normalized c (rest : jsstring) :
  is_letter c = true ->
  stripWrapping (drive_path c rest) = drive_path c rest ->
  normalizePath_posix (drive_path c rest)
  = upper_unit c :: CHAR_COLON
      :: collapse_backslash_pairs (slashes_to_backslashes rest).
Proof.
  intros Hl Hs. apply normalizePath_posix_converted.
  - exact Hs.
  - unfold isUnixPath, drive_path.
    now rewrite (startsWith_letter (js "/") c _ eq_refl Hl).
  - unfold convertToWindowsPath.
    rewrite (match_drive_drive c rest Hl). unfold drive_path.
    rewrite (startsWith_letter (js "/mnt/") c _ eq_refl Hl).
    rewrite (match_unix_drive_letter _ _ Hl).
    simpl. now rewrite (letter_not_slash c Hl).
  - exact Hl.
  - apply no_slash_backslashes.
Qed.

(** C1, as the code has it on a POSIX host.  For an input [/mnt/c/rest] or
    [/c/rest] with a letter [c], free of surrounding whitespace and quotes,
    [normalizePath] returns the form of the specification (the letter in
    upper case, a colon, the rest with backslashes for its slashes) in which
    each pair of adjacent backslashes has become one.  No path has both
    shapes, so the order of the two tests decides nothing. *)
Theorem normalizePath_mount_and_unix_drive :
  forall (c : code_unit) (rest : jsstring),
    is_letter c = true ->
    (stripWrapping (wsl_mount_path c rest) = wsl_mount_path c rest ->
     normalizePath_posix (wsl_mount_path c rest)
     = collapse_backslash_pairs
         (windows_form_spec c (CHAR_FORWARD_SLASH :: rest)))
    /\ (stripWrapping (unix_drive_path c rest) = unix_drive_path c rest ->
        normalizePath_posix (unix_drive_path c rest)
        = collapse_backslash_pairs
            (windows_form_spec c (CHAR_FORWARD_SLASH :: rest)))
    /\ match_unix_drive (wsl_mount_path c rest) = false.
Proof.
  intros c rest Hl. rewrite (windows_form_spec_collapse _ _ Hl).
  split; [|split].
  - now apply mount_form_normalized.
  - now apply unix_drive_form_normalized.
  - apply mount_is_not_unix_drive. reflexivity.
Qed.

Lemma normalizePath_mount_and_unix_drive_witness :
  is_letter 99%N = true
  /\ stripWrapping (js "/mnt/c/Users/x") = js "/mnt/c/Users/x"
  /\ normalizePath_posix (js "/mnt/c/Users/x") = js "C:\Users\x"
  /\ stripWrapping (js "/c/Users/x") = js "/c/Users/x"
  /\ normalizePath_posix (js "/c/Users/x") = js "C:\Users\x".
Proof.
  destruct (normalizePath_mount_and_unix_drive 99%N (js "Users/x") eq_refl)
    as [H1 [H2 _]].
  split; [reflexivity|]. split; [reflexivity|].
  split; [exact (H1 eq_refl)|]. split; [reflexivity|]. exact (H2 eq_refl).
Defined.

(** C1 as the specification words it fails where the rest has two slashes
    in a row: they become one backslash, not two. *)
Lemma normalizePath_mount_collapses_pairs :
  normalizePath_posix (wsl_mount_path 99%N (js "Users//x")) = js "C:\Users\x"
  /\ windows_form_spec 99%N (CHAR_FORWARD_SLASH :: js "Users//x")
     = js "C:\Users\\x"
  /\ normalizePath_posix (wsl_mount_path 99%N (js "Users//x"))
     <> windows_form_spec 99%N (CHAR_FORWARD_SLASH :: js "Users//x")
  /\ normalizePath_posix (unix_drive_path 99%N (js "Users//x"))
     <> windows_form_spec 99%N (CHAR_FORWARD_SLASH :: js "Users//x").
Proof. repeat split; discriminate. Qed.

(** C5, as the code has it on a POSIX host.  For an input [c:rest] with a
    letter [c], free of surrounding whitespace and quotes, [normalizePath]
    returns the drive letter in upper case, the colon, and the rest with
    backslashes for its forward slashes, in which each pair of adjacent
    backslashes has become one; no other code unit of the rest changes, so
    its case is kept. *)
Theorem normalizePath_drive_form :
  forall (c : code_unit) (rest : jsstring),
    is_letter c = true ->
    stripWrapping (drive_path c rest) = drive_path c rest ->
    normalizePath_posix (drive_path c rest)
    = collapse_backslash_pairs (windows_form_spec c rest).
Proof.
  intros c rest Hl Hs. rewrite (windows_form_spec_collapse _ _ Hl).
  now apply drive_form_normalized.
Qed.

Lemma normalizePath_drive_form_witness :
  is_letter 99%N = true
  /\ stripWrapping (js "c:/Users/test") = js "c:/Users/test"
  /\ normalizePath_posix (js "c:/Users/test") = js "C:\Users\test".
Proof.
  split; [reflexivity|]. split; [reflexivity|].
  exact (normalizePath_drive_form 99%N (js "/Users/test") eq_refl eq_refl).
Defined.

(** C5 as the specification words it fails where the input has two
    separators in a row. *)
Lemma normalizePath_drive_collapses_pairs :
  normalizePath_posix (drive_path 99%N (js "\\x")) = js "C:\x"
  /\ windows_form_spec 99%N (js "\\x") = js "C:\\x"
  /\ normalizePath_posix (drive_path 99%N (js "\\x"))
     <> windows_form_spec 99%N (js "\\x")
  /\ normalizePath_posix (drive_path 99%N (js "//x"))
     <> windows_form_spec 99%N (js "//x").
Proof. repeat split; discriminate. Qed.

(** ** Plain POSIX paths *)

Lemma is_slash_eq c : is_slash c = true -> c = CHAR_FORWARD_SLASH.
Proof. unfold is_slash. apply N.eqb_eq. Qed.

Lemma dropWhileEnd_cons f c (t : jsstring) :
  dropWhileEnd f (c :: t)
  = match dropWhileEnd f t with
    | [] => if f c then [] else [c]
    | t' => c :: t'
    end.
Proof. reflexivity. Qed.

Lemma dropWhileEnd_cons_keep f c (t : jsstring) :
  f c = false -> dropWhileEnd f (c :: t) = c :: dropWhileEnd f t.
Proof.
  intro H. rewrite dropWhileEnd_cons. rewrite H.
  now destruct (dropWhileEnd f t).
Qed.

Lemma dropWhileEnd_cons_nonempty f c (t : jsstring) :
  dropWhileEnd f t <> [] -> dropWhileEnd f (c :: t) = c :: dropWhileEnd f t.
Proof.
  intro H. rewrite dropWhileEnd_cons.
  destruct (dropWhileEnd f t); [congruence|reflexivity].
Qed.

(** What [normalizePath] does to a Unix path, read on its segments: the
    first segment stays where it is, and each later segment that is not
    empty follows after one slash. *)
Lemma collapse_then_trim_segments (s : jsstring) :
  remove_trailing_slashes (collapse_slashes s)
  = match split s with
    | first :: others =>
        first ++ absolute_of (filter (fun seg => negb (is_empty seg)) others)
    | [] => []
    end.
Proof.
  unfold remove_trailing_slashes.
  induction s as [|c t IH]; [reflexivity|].
  simpl split. simpl collapse_slashes.
  destruct (split_cons t) as [t0 [trest E]]. rewrite E in IH |- *.
  destruct (is_slash c) eqn:Hc.
  - apply is_slash_eq in Hc. subst c. simpl andb.
    destruct t as [|d t'].
    + simpl. simpl in E. injection E as <- <-. reflexivity.
    + destruct (is_slash d) eqn:Hd.
      * rewrite IH. simpl in E. rewrite Hd in E. injection E as <- <-.
        reflexivity.
      * simpl in E. rewrite Hd in E.
        destruct (split_cons t') as [u0 [urest E']]. rewrite E' in E.
        injection E as <- <-.
        rewrite dropWhileEnd_cons_nonempty.
        2:{ rewrite IH. discriminate. }
        rewrite IH. reflexivity.
  - simpl andb. cbv iota. rewrite dropWhileEnd_cons_keep by exact Hc.
    rewrite IH. reflexivity.
Qed.

Lemma components_absolute (t : jsstring) :
  components (CHAR_FORWARD_SLASH :: t) = components t.
Proof. reflexivity. Qed.

(** On a path that begins with a slash, the two replacements of the Unix
    branch give the absolute path of the non-empty segments. *)
Lemma collapse_then_trim_absolute (p : jsstring) :
  startsWith (js "/") p = true ->
  remove_trailing_slashes (collapse_slashes p) = posix_form_spec p.
Proof.
  destruct p as [|c t]; [discriminate|]. intro H.
  assert (E : c = CHAR_FORWARD_SLASH).
  { cbn - [N.eqb] in H. rewrite Bool.andb_true_r in H.
    apply N.eqb_eq in H. now symmetry. }
  subst c. rewrite collapse_then_trim_segments. reflexivity.
Qed.

Lemma isUnixPath_startsWith (p : jsstring) :
  isUnixPath p = true -> startsWith (js "/") p = true.
Proof.
  unfold isUnixPath. rewrite !Bool.andb_true_iff. tauto.
Qed.

(** C4, as the code has it, on every host.  For a plain POSIX input that is
    free of surrounding whitespace and quotes and has a segment that is not
    empty, [normalizePath] returns the same path with its runs of slashes
    collapsed and its trailing slashes removed: the absolute path of its
    non-empty segments, which are not converted in any way. *)
Theorem normalizePath_plain_posix :
  forall (upcase path_normalize : jsstring -> jsstring) (p : jsstring),
    isUnixPath p = true ->
    stripWrapping p = p ->
    components p <> [] ->
    normalizePath upcase path_normalize p = posix_form_spec p
    /\ posix_form_spec p = remove_trailing_slashes (collapse_slashes p).
Proof.
  intros upcase nz p Hu Hs _.
  rewrite (collapse_then_trim_absolute p (isUnixPath_startsWith p Hu)).
  split; [|reflexivity].
  unfold normalizePath. rewrite Hs, Hu.
  apply collapse_then_trim_absolute. now apply isUnixPath_startsWith.
Qed.

Lemma normalizePath_plain_posix_witness :
  isUnixPath (js "/usr//local/bin/") = true
  /\ stripWrapping (js "/usr//local/bin/") = js "/usr//local/bin/"
  /\ components (js "/usr//local/bin/") <> []
  /\ normalizePath toUpperCase Posix.normalize (js "/usr//local/bin/")
     = js "/usr/local/bin".
Proof.
  split; [reflexivity|]. split; [reflexivity|]. split; [discriminate|].
  exact (proj1 (normalizePath_plain_posix toUpperCase Posix.normalize
                  (js "/usr//local/bin/") eq_refl eq_refl
                  ltac:(discriminate))).
Defined.

(** C4 as the specification words it fails on a plain POSIX input that ends
    with whitespace or with a quote: the stripping step removes it. *)
Lemma normalizePath_plain_posix_strips :
  isUnixPath (js "/usr/bin ") = true
  /\ normalizePath_posix (js "/usr/bin ") = js "/usr/bin"
  /\ posix_form_spec (js "/usr/bin ") = js "/usr/bin "
  /\ normalizePath_posix (js "/usr/bin ") <> posix_form_spec (js "/usr/bin ")
  /\ isUnixPath (js "/usr/bin'") = true
  /\ normalizePath_posix (js "/usr/bin'") <> posix_form_spec (js "/usr/bin'").
Proof. repeat split; discriminate. Qed.

(** ** Segments are kept on the Unix branch, resolved by [path.normalize] *)

Lemma split_segments_no_slash (s : jsstring) :
  Forall (fun seg => no_slash seg = true) (split s).
Proof.
  induction s as [|c t IH]; simpl.
  - repeat constructor.
  - destruct (is_slash c) eqn:Hc.
    + constructor; [reflexivity|exact IH].
    + destruct (split t) as [|s0 ss]; [repeat constructor; simpl; now rewrite Hc|].
      inversion IH; subst. constructor; [|assumption].
      simpl. now rewrite Hc.
Qed.

Lemma components_kept (s : jsstring) :
  Forall (fun seg => no_slash seg = true /\ is_empty seg = false)
    (components s).
Proof.
  unfold components. apply Forall_forall. intros seg H.
  apply filter_In in H. destruct H as [H1 H2].
  split.
  - pose proof (split_segments_no_slash s) as F.
    rewrite Forall_forall in F. now apply F.
  - now apply Bool.negb_true_iff.
Qed.

Lemma no_slash_app (a b : jsstring) :
  no_slash (a ++ b) = no_slash a && no_slash b.
Proof. unfold no_slash. apply forallb_app. Qed.

Lemma split_segment_absolute (seg : jsstring) (segs : list jsstring) :
  no_slash seg = true ->
  Forall (fun s => no_slash s = true) segs ->
  split (seg ++ absolute_of segs) = seg :: segs.
Proof.
  intros Hseg F. revert seg Hseg.
  induction F as [|s segs Hs F IH]; intros seg Hseg.
  - unfold absolute_of. simpl. rewrite app_nil_r. now apply split_no_slash.
  - unfold absolute_of. simpl. fold (absolute_of segs).
    rewrite split_app_slash. rewrite (split_no_slash seg Hseg).
    now rewrite (IH s Hs).
Qed.

(** The non-empty segments of an absolute path made of non-empty segments
    are these segments. *)
Lemma components_absolute_of (segs : list jsstring) :
  Forall (fun seg => no_slash seg = true /\ is_empty seg = false) segs ->
  components (absolute_of segs) = segs.
Proof.
  intro F. unfold components.
  change (absolute_of segs) with ([] ++ absolute_of segs).
  rewrite split_segment_absolute.
  - simpl. induction F as [|s segs [_ Hs] F IH]; [reflexivity|].
    simpl. rewrite Hs. simpl. now rewrite IH.
  - reflexivity.
  - eapply Forall_impl; [|exact F]. simpl. tauto.
Qed.


Lemma dotdots_first_snoc_other (l : list jsstring) (seg : jsstring) :
  Posix.is_dotdot seg = false ->
  dotdots_first (l ++ [seg]) = dotdots_first l.
Proof.
  intro H. induction l as [|a l IH]; simpl.
  - now rewrite H.
  - destruct (Posix.is_dotdot a); [exact IH|].
    rewrite forallb_app. simpl. rewrite H. simpl.
    now rewrite !Bool.andb_true_r.
Qed.

Lemma dotdots_first_all (l : list jsstring) (x : jsstring) :
  forallb Posix.is_dotdot l = true -> dotdots_first (l ++ [x]) = true.
Proof.
  induction l as [|a l IH]; simpl.
  - intros _. now destruct (Posix.is_dotdot x).
  - rewrite Bool.andb_true_iff. intros [Ha Hl]. rewrite Ha. now apply IH.
Qed.

Lemma dotdots_first_snoc_dotdot (l : list jsstring) (d : jsstring) :
  Posix.is_dotdot d = true ->
  dotdots_first (l ++ [d]) = true ->
  forallb Posix.is_dotdot l = true.
Proof.
  intro Hd. induction l as [|a l IH]; simpl; [reflexivity|].
  destruct (Posix.is_dotdot a); simpl.
  - exact IH.
  - rewrite forallb_app. simpl. rewrite Hd. simpl.
    rewrite Bool.andb_false_r. discriminate.
Qed.

Lemma dotdots_first_prefix (l : list jsstring) (x : jsstring) :
  dotdots_first (l ++ [x]) = true -> dotdots_first l = true.
Proof.
  induction l as [|a l IH]; simpl; [reflexivity|].
  destruct (Posix.is_dotdot a); [exact IH|].
  rewrite forallb_app, Bool.andb_true_iff. tauto.
Qed.

Lemma is_dotdot_kept (seg : jsstring) :
  Posix.is_dotdot seg = true -> kept_segment seg = true.
Proof.
  unfold Posix.is_dotdot. rewrite str_eqb_eq. intros ->. reflexivity.
Qed.

Lemma step_keeps (allow : bool) (res : list jsstring) (seg : jsstring) :
  no_slash seg = true ->
  kept_so_far allow res ->
  kept_so_far allow (Posix.step allow res seg).
Proof.
  intros Hseg [HF [HD HA]]. unfold Posix.step.
  destruct seg as [|c seg']; [now repeat split|].
  set (seg := c :: seg') in *.
  destruct (Posix.is_dot seg) eqn:Hdot; [now repeat split|].
  destruct (Posix.is_dotdot seg) eqn:Hdd.
  - destruct res as [|top below].
    + destruct allow; [|now repeat split].
      repeat split.
      * constructor; [now apply is_dotdot_kept|constructor].
      * simpl. now rewrite Hdd.
      * discriminate.
    + destruct (Posix.is_dotdot top) eqn:Htop.
      * destruct allow; [|now repeat split].
        repeat split.
        -- constructor; [now apply is_dotdot_kept|exact HF].
        -- simpl rev. apply dotdots_first_all.
           simpl rev in HD.
           pose proof (dotdots_first_snoc_dotdot _ _ Htop HD) as Hb.
           rewrite forallb_app. rewrite Hb. simpl. now rewrite Htop.
        -- discriminate.
      * inversion HF; subst. repeat split.
        -- assumption.
        -- simpl rev in HD. now apply dotdots_first_prefix in HD.
        -- intro Ha. specialize (HA Ha). now inversion HA.
  - repeat split.
    + constructor; [|exact HF].
      unfold kept_segment. now rewrite Hseg, Hdot.
    + simpl rev. now rewrite dotdots_first_snoc_other.
    + intro Ha. constructor; [exact Hdd|now apply HA].
Qed.

Lemma fold_step_keeps (allow : bool) (segs res : list jsstring) :
  Forall (fun seg => no_slash seg = true) segs ->
  kept_so_far allow res ->
  kept_so_far allow (fold_left (Posix.step allow) segs res).
Proof.
  intro F. revert res. induction F as [|seg segs Hseg F IH]; intros res H.
  - exact H.
  - simpl. apply IH. now apply step_keeps.
Qed.

Lemma join_segments_cons (seg : jsstring) (segs : list jsstring) :
  segs <> [] ->
  join_segments (seg :: segs) = seg ++ CHAR_FORWARD_SLASH :: join_segments segs.
Proof. destruct segs; [congruence|reflexivity]. Qed.
















(** ** Normalizing twice *)

Lemma is_backslash_eq c : is_backslash c = true -> c = CHAR_BACKWARD_SLASH.
Proof. unfold is_backslash. apply N.eqb_eq. Qed.

Lemma last_unit_collapse_backslash_pairs (s : jsstring) :
  last_unit (collapse_backslash_pairs s) = last_unit s.
Proof.
  induction s as [|a|a b t IHt IHc] using pairs_ind; try reflexivity.
  change (collapse_backslash_pairs (a :: b :: t))
    with (if is_backslash a && is_backslash b
          then CHAR_BACKWARD_SLASH :: collapse_backslash_pairs t
          else a :: collapse_backslash_pairs (b :: t)).
  destruct (is_backslash a && is_backslash b) eqn:E.
  - apply Bool.andb_true_iff in E. destruct E as [_ Hb].
    apply is_backslash_eq in Hb. subst b.
    rewrite last_unit_cons, !last_unit_step, IHt. reflexivity.
  - rewrite last_unit_cons, last_unit_step, IHc.
    destruct (last_unit (b :: t)) eqn:L; [reflexivity|].
    apply last_unit_None in L. discriminate.
Qed.

Lemma head_collapse_backslash_pairs (s : jsstring) :
  head_is is_backslash (collapse_backslash_pairs s) = head_is is_backslash s.
Proof.
  destruct s as [|a [|b t]]; try reflexivity.
  change (collapse_backslash_pairs (a :: b :: t))
    with (if is_backslash a && is_backslash b
          then CHAR_BACKWARD_SLASH :: collapse_backslash_pairs t
          else a :: collapse_backslash_pairs (b :: t)).
  destruct (is_backslash a) eqn:Ha; destruct (is_backslash b); simpl;
    now rewrite ?Ha.
Qed.

Lemma no_run2_cons (f : code_unit -> bool) a (t : jsstring) :
  no_run2 f (a :: t) = negb (f a && head_is f t) && no_run2 f t.
Proof. reflexivity. Qed.

(** One pass over a string without three backslashes in a row leaves no two
    in a row, and a string without two in a row is left as it is. *)
Lemma collapse_backslash_pairs_no_run2 (s : jsstring) :
  no_run3 is_backslash s = true ->
  no_run2 is_backslash (collapse_backslash_pairs s) = true.
Proof.
  induction s as [|a|a b t IHt IHc] using pairs_ind; try (intros _; simpl;
    now rewrite ?Bool.andb_false_r).
  change (collapse_backslash_pairs (a :: b :: t))
    with (if is_backslash a && is_backslash b
          then CHAR_BACKWARD_SLASH :: collapse_backslash_pairs t
          else a :: collapse_backslash_pairs (b :: t)).
  intro H.
  assert (H3 : is_backslash a && is_backslash b && head_is is_backslash t
               = false).
  { simpl in H. apply Bool.andb_true_iff in H. destruct H as [H _].
    now apply Bool.negb_true_iff in H. }
  assert (Hbt : no_run3 is_backslash (b :: t) = true).
  { simpl in H. apply Bool.andb_true_iff in H. tauto. }
  assert (Ht : no_run3 is_backslash t = true).
  { simpl in Hbt. apply Bool.andb_true_iff in Hbt. tauto. }
  destruct (is_backslash a && is_backslash b) eqn:E.
  - simpl in H3. rewrite no_run2_cons.
    rewrite head_collapse_backslash_pairs, H3. simpl. now apply IHt.
  - rewrite no_run2_cons. rewrite head_collapse_backslash_pairs.
    simpl head_is. rewrite E. simpl. now apply IHc.
Qed.

Lemma collapse_backslash_pairs_id (s : jsstring) :
  no_run2 is_backslash s = true -> collapse_backslash_pairs s = s.
Proof.
  induction s as [|a|a b t IHt IHc] using pairs_ind; try reflexivity.
  change (collapse_backslash_pairs (a :: b :: t))
    with (if is_backslash a && is_backslash b
          then CHAR_BACKWARD_SLASH :: collapse_backslash_pairs t
          else a :: collapse_backslash_pairs (b :: t)).
  rewrite no_run2_cons. simpl head_is.
  rewrite Bool.andb_true_iff, Bool.negb_true_iff. intros [E H].
  rewrite E. now rewrite IHc.
Qed.

Lemma no_run3_backslashes (s : jsstring) :
  no_run3 is_separator s = true ->
  no_run3 is_backslash (slashes_to_backslashes s) = true.
Proof.
  assert (B : forall c, is_backslash (if is_slash c then CHAR_BACKWARD_SLASH
                                      else c) = is_separator c).
  { intro c. unfold is_separator. destruct (is_slash c); reflexivity. }
  assert (Hd : forall t, head_is is_backslash (slashes_to_backslashes t)
                         = head_is is_separator t).
  { intros [|c t]; [reflexivity|]. simpl. apply B. }
  induction s as [|a t IH]; [reflexivity|].
  simpl. rewrite B, Hd.
  replace (head_is is_backslash (tl (slashes_to_backslashes t)))
    with (head_is is_separator (tl t))
    by (destruct t; [reflexivity|]; simpl; now rewrite Hd).
  rewrite !Bool.andb_true_iff. intros [H1 H2]. split; [exact H1|now apply IH].
Qed.

Lemma no_run3_tail (f : code_unit -> bool) c (s : jsstring) :
  no_run3 f (c :: s) = true -> no_run3 f s = true.
Proof. simpl. rewrite Bool.andb_true_iff. tauto. Qed.

Lemma letter_not_wrapping c : is_letter c = true -> is_wrapping c = false.
Proof.
  intro H. unfold is_wrapping.
  now rewrite (letter_not_space c H), (letter_not_quote c H).
Qed.

(** A drive form in upper case, without forward slashes or pairs of
    backslashes and with a clean end, is a fixed point. *)
Lemma normalizePath_posix_drive_fixed u (y : jsstring) :
  is_letter u = true ->
  is_lower u = false ->
  no_slash y = true ->
  no_run2 is_backslash y = true ->
  ends_clean y = true ->
  normalizePath_posix (drive_path u y) = drive_path u y.
Proof.
  intros Hl Hu Hy H2 He.
  rewrite drive_form_normalized; [|exact Hl|].
  - rewrite (slashes_to_backslashes_id _ Hy).
    rewrite (collapse_backslash_pairs_id _ H2).
    now rewrite (upper_unit_upper u Hu).
  - apply stripWrapping_id. unfold ends_outside, drive_path.
    rewrite (letter_not_wrapping u Hl). simpl negb. simpl andb.
    unfold ends_clean in He.
    destruct y as [|d y]; [reflexivity|exact He].
Qed.

Lemma last_nonslash_clean_end (p : jsstring) :
  last_nonslash_clean p = true -> ends_slash_or_clean p = true.
Proof.
  unfold last_nonslash_clean, ends_clean, ends_slash_or_clean,
    remove_trailing_slashes.
  destruct (last_unit p) as [l|] eqn:L; [|reflexivity].
  destruct (is_slash l) eqn:Hl; [reflexivity|].
  rewrite dropWhileEnd_id by now rewrite L.
  now rewrite L.
Qed.

Lemma ends_clean_backslashes (x : jsstring) :
  ends_slash_or_clean x = true ->
  ends_clean (collapse_backslash_pairs (slashes_to_backslashes x)) = true.
Proof.
  unfold ends_slash_or_clean, ends_clean.
  rewrite last_unit_collapse_backslash_pairs.
  unfold slashes_to_backslashes. rewrite last_unit_map.
  destruct (last_unit x) as [l|]; [|reflexivity]. simpl.
  destruct (is_slash l); [reflexivity|]. simpl. tauto.
Qed.

Lemma ends_slash_or_clean_suffix (pre x : jsstring) :
  ends_slash_or_clean (pre ++ x) = true -> ends_slash_or_clean x = true.
Proof.
  destruct x as [|d x]; [reflexivity|].
  unfold ends_slash_or_clean. now rewrite last_unit_app_cons.
Qed.

Lemma stripWrapping_clean c (t : jsstring) :
  is_wrapping c = false ->
  ends_slash_or_clean (c :: t) = true ->
  stripWrapping (c :: t) = c :: t.
Proof.
  intros Hc He. apply stripWrapping_id. unfold ends_outside.
  rewrite Hc. change (negb false) with true. rewrite Bool.andb_true_l.
  unfold ends_slash_or_clean in He.
  destruct (last_unit (c :: t)) as [l|]; [|reflexivity].
  destruct (is_slash l) eqn:Hl; [|exact He].
  apply is_slash_eq in Hl. subst l. reflexivity.
Qed.

Lemma no_run3_suffix (f : code_unit -> bool) (pre x : jsstring) :
  no_run3 f (pre ++ x) = true -> no_run3 f x = true.
Proof.
  induction pre as [|a pre IH]; [tauto|].
  intro H. apply IH. now apply no_run3_tail in H.
Qed.

(** When the first pass has produced a drive form out of a rest without
    three separators in a row and with a clean end, the second pass changes
    nothing. *)
Lemma idempotent_of_converted (p : jsstring) c (x : jsstring) :
  normalizePath_posix p
  = upper_unit c :: CHAR_COLON
      :: collapse_backslash_pairs (slashes_to_backslashes x) ->
  is_letter c = true ->
  ends_slash_or_clean x = true ->
  no_run3 is_separator x = true ->
  normalizePath_posix (normalizePath_posix p) = normalizePath_posix p.
Proof.
  intros E Hl He H3. rewrite E.
  change (upper_unit c :: CHAR_COLON
            :: collapse_backslash_pairs (slashes_to_backslashes x))
    with (drive_path (upper_unit c)
            (collapse_backslash_pairs (slashes_to_backslashes x))).
  apply (normalizePath_posix_drive_fixed (upper_unit c)).
  - now apply upper_unit_letter.
  - now apply upper_unit_not_lower.
  - apply no_slash_collapse_backslash_pairs, no_slash_backslashes.
  - now apply collapse_backslash_pairs_no_run2, no_run3_backslashes.
  - now apply ends_clean_backslashes.
Qed.

Lemma match_wsl_mount_inv (p : jsstring) :
  match_wsl_mount p = true ->
  exists c rest, is_letter c = true /\ p = wsl_mount_path c rest.
Proof.
  unfold match_wsl_mount, wsl_mount_path.
  destruct p as [|c0 [|c1 [|c2 [|c3 [|c4 [|c5 [|c6 rest]]]]]]];
    try (now rewrite Bool.andb_false_r).
  cbn - [N.eqb is_letter is_slash eq_nocase].
  rewrite !Bool.andb_true_iff, !N.eqb_eq.
  intros [[H0 [H1 [H2 [H3 [H4 _]]]]] [[_ Hl] H6]].
  apply is_slash_eq in H6. subst. now exists c5, rest.
Qed.

Lemma match_unix_drive_inv (p : jsstring) :
  match_unix_drive p = true ->
  exists c rest, is_letter c = true /\ p = unix_drive_path c rest.
Proof.
  unfold match_unix_drive, unix_drive_path.
  destruct p as [|c0 [|c1 [|c2 rest]]]; try discriminate.
  rewrite !Bool.andb_true_iff. intros [[H0 Hl] H2].
  apply is_slash_eq in H0, H2. subst. now exists c1, rest.
Qed.

Lemma match_drive_inv (p : jsstring) :
  match_drive p = true ->
  exists c rest, is_letter c = true /\ p = drive_path c rest.
Proof.
  unfold match_drive, drive_path.
  destruct p as [|c0 [|c1 rest]]; try discriminate.
  rewrite !Bool.andb_true_iff. intros [Hl H1].
  apply N.eqb_eq in H1. subst. now exists c0, rest.
Qed.

Lemma idempotent_drive_forms (p : jsstring) :
  match_wsl_mount p = true \/ match_unix_drive p = true
  \/ match_drive p = true ->
  last_nonslash_clean p = true ->
  no_run3 is_separator p = true ->
  normalizePath_posix (normalizePath_posix p) = normalizePath_posix p.
Proof.
  intros Hform Hc H3. apply last_nonslash_clean_end in Hc.
  destruct Hform as [H|[H|H]].
  - apply match_wsl_mount_inv in H. destruct H as [c [rest [Hl ->]]].
    apply (idempotent_of_converted _ c (CHAR_FORWARD_SLASH :: rest)).
    + apply (mount_form_normalized c rest Hl).
      apply stripWrapping_clean; [reflexivity|exact Hc].
    + exact Hl.
    + apply (ends_slash_or_clean_suffix (js "/mnt/" ++ [c])).
      now rewrite <- app_assoc.
    + apply (no_run3_suffix _ (js "/mnt/" ++ [c])). now rewrite <- app_assoc.
  - apply match_unix_drive_inv in H. destruct H as [c [rest [Hl ->]]].
    apply (idempotent_of_converted _ c (CHAR_FORWARD_SLASH :: rest)).
    + apply (unix_drive_form_normalized c rest Hl).
      apply stripWrapping_clean; [reflexivity|exact Hc].
    + exact Hl.
    + now apply (ends_slash_or_clean_suffix [CHAR_FORWARD_SLASH; c]).
    + now apply (no_run3_suffix _ [CHAR_FORWARD_SLASH; c]).
  - apply match_drive_inv in H. destruct H as [c [rest [Hl ->]]].
    apply (idempotent_of_converted _ c rest).
    + apply (drive_form_normalized c rest Hl).
      apply stripWrapping_clean; [now apply letter_not_wrapping|exact Hc].
    + exact Hl.
    + now apply (ends_slash_or_clean_suffix [c; CHAR_COLON]).
    + now apply (no_run3_suffix _ [c; CHAR_COLON]).
Qed.

Lemma filter_collapse_slashes (s : jsstring) :
  filter (fun c => negb (is_slash c)) (collapse_slashes s)
  = filter (fun c => negb (is_slash c)) s.
Proof.
  induction s as [|c t IH]; [reflexivity|].
  simpl collapse_slashes.
  destruct (is_slash c) eqn:Hc; simpl andb; cbv iota.
  - destruct (match t with c' :: _ => is_slash c' | [] => false end);
      simpl; rewrite Hc; simpl; exact IH.
  - simpl. rewrite Hc. simpl. now rewrite IH.
Qed.

(** The last code unit that is left after the removal of a class at the end
    is the last code unit outside the class. *)
Lemma last_unit_dropWhileEnd (f : code_unit -> bool) (s : jsstring) :
  last_unit (dropWhileEnd f s) = last_unit (filter (fun c => negb (f c)) s).
Proof.
  induction s as [|c t IH]; [reflexivity|].
  rewrite dropWhileEnd_cons. simpl filter.
  destruct (dropWhileEnd f t) as [|d t'] eqn:E.
  - symmetry in IH. apply last_unit_None in IH. rewrite IH.
    now destruct (f c).
  - rewrite last_unit_cons, IH.
    destruct (f c); [reflexivity|].
    change (negb false) with true. cbv iota.
    rewrite last_unit_step.
    destruct (last_unit (filter (fun c0 => negb (f c0)) t)) eqn:L;
      [reflexivity|].
    rewrite last_unit_step in IH. now destruct (last_unit t').
Qed.

Lemma dropWhileEnd_prefix (f : code_unit -> bool) (s : jsstring) :
  exists rest, s = dropWhileEnd f s ++ rest.
Proof.
  induction s as [|c t [rest IH]].
  - now exists [].
  - rewrite dropWhileEnd_cons.
    destruct (dropWhileEnd f t) as [|d t'] eqn:E.
    + destruct (f c).
      * now exists (c :: t).
      * exists t. reflexivity.
    + exists rest. simpl. f_equal. exact IH.
Qed.

Lemma match_wsl_mount_i_prefix (a b : jsstring) :
  match_wsl_mount_i a = true -> match_wsl_mount_i (a ++ b) = true.
Proof.
  destruct a as [|c0 [|c1 [|c2 [|c3 [|c4 [|c5 [|c6 a]]]]]]];
    try discriminate.
  tauto.
Qed.

Lemma match_unix_drive_prefix (a b : jsstring) :
  match_unix_drive a = true -> match_unix_drive (a ++ b) = true.
Proof.
  destruct a as [|c0 [|c1 [|c2 a]]]; try discriminate. tauto.
Qed.

(** A prefix of a Unix path, if not empty, is a Unix path. *)
Lemma isUnixPath_prefix (a b : jsstring) :
  a <> [] -> isUnixPath (a ++ b) = true -> isUnixPath a = true.
Proof.
  intros Ha. unfold isUnixPath.
  rewrite !Bool.andb_true_iff, !Bool.negb_true_iff.
  intros [[H0 H1] H2]. repeat split.
  - destruct a as [|c a]; [congruence|exact H0].
  - destruct (match_wsl_mount_i a) eqn:E; [|reflexivity].
    apply (match_wsl_mount_i_prefix a b) in E. congruence.
  - destruct (match_unix_drive a) eqn:E; [|reflexivity].
    apply (match_unix_drive_prefix a b) in E. congruence.
Qed.

Lemma absolute_of_cons (seg : jsstring) (segs : list jsstring) :
  absolute_of (seg :: segs) = CHAR_FORWARD_SLASH :: seg ++ absolute_of segs.
Proof. reflexivity. Qed.

Lemma idempotent_plain (p : jsstring) :
  isUnixPath p = true ->
  isUnixPath (collapse_slashes p) = true ->
  components p <> [] ->
  last_nonslash_clean p = true ->
  normalizePath_posix (normalizePath_posix p) = normalizePath_posix p.
Proof.
  intros Hu Hcu Hne Hc.
  pose proof (isUnixPath_startsWith p Hu) as Hs.
  assert (Hstrip : stripWrapping p = p).
  { destruct p as [|c t]; [discriminate|].
    assert (c = CHAR_FORWARD_SLASH).
    { cbn - [N.eqb] in Hs. rewrite Bool.andb_true_r in Hs.
      apply N.eqb_eq in Hs. now symmetry. }
    subst c. apply stripWrapping_clean; [reflexivity|].
    now apply last_nonslash_clean_end. }
  set (r := remove_trailing_slashes (collapse_slashes p)).
  assert (Er : r = posix_form_spec p)
    by now apply collapse_then_trim_absolute.
  assert (E1 : normalizePath_posix p = r).
  { unfold normalizePath_posix, normalizePath. now rewrite Hstrip, Hu. }
  rewrite E1.
  assert (Hr : exists t, r = CHAR_FORWARD_SLASH :: t).
  { rewrite Er. unfold posix_form_spec.
    destruct (components p) as [|seg segs]; [congruence|].
    rewrite absolute_of_cons. eauto. }
  destruct Hr as [t Ht].
  assert (Hru : isUnixPath r = true).
  { destruct (dropWhileEnd_prefix is_slash (collapse_slashes p))
      as [rest Hrest].
    fold (remove_trailing_slashes (collapse_slashes p)) in Hrest. fold r in Hrest.
    apply (isUnixPath_prefix r rest); [rewrite Ht; discriminate|].
    now rewrite <- Hrest. }
  assert (Hrs : stripWrapping r = r).
  { rewrite Ht. apply stripWrapping_clean; [reflexivity|]. rewrite <- Ht.
    unfold ends_slash_or_clean.
    assert (L : last_unit r = last_unit (remove_trailing_slashes p)).
    { unfold r, remove_trailing_slashes.
      now rewrite !last_unit_dropWhileEnd, filter_collapse_slashes. }
    rewrite L. unfold last_nonslash_clean, ends_clean in Hc.
    destruct (last_unit (remove_trailing_slashes p)); [|reflexivity].
    rewrite Hc. apply Bool.orb_true_r. }
  assert (E2 : normalizePath_posix r = posix_form_spec r).
  { unfold normalizePath_posix, normalizePath. rewrite Hrs, Hru.
    apply collapse_then_trim_absolute. now apply isUnixPath_startsWith. }
  rewrite E2. unfold posix_form_spec at 1. rewrite Er at 1.
  unfold posix_form_spec at 1.
  rewrite components_absolute_of by apply components_kept.
  now rewrite Er.
Qed.

(** C6, as the code has it on a POSIX host.  Normalizing twice gives what
    normalizing once gives, for every input of the forms of the
    specification that, its trailing slashes set aside, does not end with
    whitespace or with a quote, and that is either a plain POSIX path with
    a segment that is not empty which stays a plain POSIX path when its runs
    of slashes are collapsed, or a mount, Unix drive or drive form without
    three separators in a row. *)
Theorem normalizePath_posix_idempotent :
  forall p : jsstring,
    last_nonslash_clean p = true ->
    (isUnixPath p = true
     /\ isUnixPath (collapse_slashes p) = true
     /\ components p <> [])
    \/ ((match_wsl_mount p = true \/ match_unix_drive p = true
         \/ match_drive p = true)
        /\ no_run3 is_separator p = true) ->
    normalizePath_posix (normalizePath_posix p) = normalizePath_posix p.
Proof.
  intros p Hc [[Hu [Hcu Hne]]|[Hform H3]].
  - now apply idempotent_plain.
  - now apply idempotent_drive_forms.
Qed.

Lemma normalizePath_posix_idempotent_witness :
  last_nonslash_clean (js "/usr//local/bin/") = true
  /\ isUnixPath (js "/usr//local/bin/") = true
  /\ isUnixPath (collapse_slashes (js "/usr//local/bin/")) = true
  /\ components (js "/usr//local/bin/") <> []
  /\ normalizePath_posix (normalizePath_posix (js "/usr//local/bin/"))
     = normalizePath_posix (js "/usr//local/bin/")
  /\ last_nonslash_clean (js "/mnt/c//Program Files/") = true
  /\ match_wsl_mount (js "/mnt/c//Program Files/") = true
  /\ no_run3 is_separator (js "/mnt/c//Program Files/") = true
  /\ normalizePath_posix (normalizePath_posix (js "/mnt/c//Program Files/"))
     = normalizePath_posix (js "/mnt/c//Program Files/").
Proof.
  split; [reflexivity|]. split; [reflexivity|]. split; [reflexivity|].
  split; [discriminate|]. split.
  - apply (normalizePath_posix_idempotent (js "/usr//local/bin/") eq_refl).
    left. split; [reflexivity|]. split; [reflexivity|discriminate].
  - split; [reflexivity|]. split; [reflexivity|]. split; [reflexivity|].
    apply (normalizePath_posix_idempotent (js "/mnt/c//Program Files/")
             eq_refl).
    right. split; [left; reflexivity|reflexivity].
Defined.

(** C6 as the specification words it fails on each kind of input: a plain
    POSIX path that ends with two quotes loses one of them at each pass; a
    plain POSIX path whose collapsed form is a Unix drive form is converted
    at the second pass; a drive form with four backslashes in a row loses a
    pair at each pass. *)
Lemma normalizePath_posix_not_idempotent :
  isUnixPath (js "/tmp/x''") = true
  /\ normalizePath_posix (js "/tmp/x''") = js "/tmp/x'"
  /\ normalizePath_posix (normalizePath_posix (js "/tmp/x''")) = js "/tmp/x"
  /\ normalizePath_posix (normalizePath_posix (js "/tmp/x''"))
     <> normalizePath_posix (js "/tmp/x''")
  /\ isUnixPath (js "//c/x") = true
  /\ normalizePath_posix (normalizePath_posix (js "//c/x"))
     <> normalizePath_posix (js "//c/x")
  /\ match_drive (js "c:\\\\x") = true
  /\ normalizePath_posix (normalizePath_posix (js "c:\\\\x"))
     <> normalizePath_posix (js "c:\\\\x").
Proof. repeat split; discriminate. Qed.

(** The bare root, which the first pass turns into the empty string (C2),
    becomes [.] at the second pass. *)
Lemma normalizePath_posix_root_twice :
  normalizePath_posix (js "/") = js ""
  /\ normalizePath_posix (normalizePath_posix (js "/")) = js ".".
Proof. split; reflexivity. Qed.

(** ** Upper case is only ever asked of ASCII letters *)

Lemma convertToWindowsPath_upcase_ascii (upcase : jsstring -> jsstring)
    (p : jsstring) :
  (forall c, is_letter c = true -> upcase [c] = toUpperCase [c]) ->
  isUnixPath p = false ->
  convertToWindowsPath upcase p = convertToWindowsPath toUpperCase p.
Proof.
  intros Hup Hu. unfold convertToWindowsPath.
  destruct (startsWith (js "/mnt/") p) eqn:S.
  - assert (W : match_wsl_mount_i p = true).
    { unfold isUnixPath in Hu.
      rewrite (mount_is_not_unix_drive p S) in Hu.
      destruct p as [|c0 p]; [discriminate|].
      cbn - [N.eqb] in S. apply Bool.andb_true_iff in S. destruct S as [S0 _].
      cbn - [N.eqb match_wsl_mount_i] in Hu. rewrite S0 in Hu.
      destruct (match_wsl_mount_i (c0 :: p)); [reflexivity|discriminate]. }
    destruct p as [|c0 [|c1 [|c2 [|c3 [|c4 [|c5 [|c6 rest]]]]]]];
      try discriminate.
    unfold match_wsl_mount_i in W. rewrite !Bool.andb_true_iff in W.
    destruct W as [[_ Hl] _].
    change (charAt (c0 :: c1 :: c2 :: c3 :: c4 :: c5 :: c6 :: rest) 5)
      with [c5].
    now rewrite (Hup c5 Hl).
  - destruct (match_unix_drive p) eqn:M; [|reflexivity].
    destruct p as [|c0 [|c1 [|c2 rest]]]; try discriminate.
    unfold match_unix_drive in M. rewrite !Bool.andb_true_iff in M.
    destruct M as [[_ Hl] _].
    change (charAt (c0 :: c1 :: c2 :: rest) 1) with [c1].
    now rewrite (Hup c1 Hl).
Qed.

(** [normalizePath] depends on [toUpperCase] through the ASCII letters
    only: any case mapping that agrees with it on them gives the same
    result, on every host. *)
Lemma normalizePath_upcase_ascii (upcase nz : jsstring -> jsstring)
    (p : jsstring) :
  (forall c, is_letter c = true -> upcase [c] = toUpperCase [c]) ->
  normalizePath upcase nz p = normalizePath toUpperCase nz p.
Proof.
  intro Hup. unfold normalizePath.
  destruct (isUnixPath (stripWrapping p)) eqn:Hu; [reflexivity|].
  rewrite (convertToWindowsPath_upcase_ascii upcase _ Hup Hu).
  set (normalized := nz _).
  destruct (match_windows_like normalized); [|reflexivity].
  set (result := slashes_to_backslashes normalized).
  destruct (match_lower_drive result) eqn:L; [|reflexivity].
  destruct result as [|c0 [|c1 rest]]; try discriminate.
  unfold match_lower_drive in L. apply Bool.andb_true_iff in L.
  destruct L as [L _].
  change (charAt (c0 :: c1 :: rest) 0) with [c0].
  rewrite Hup; [reflexivity|]. unfold is_letter. now rewrite L.
Qed.

(** ** The example of the specification for the validation of roots *)

Example getValidRootDirectories_example :
  getValidRootDirectories toUpperCase Posix.normalize
    (Posix.resolve (js "/work")) (posix_resolve_throws cwd_readable)
    example_stat example_roots
    {| world := tt; console := [] |}
  = (Resolved [js "/tmp/ok"],
     {| world := tt;
        console :=
          [ js "Skipping invalid directory: /tmp/missing due to error: ENOENT: no such file or directory";
            js "Skipping non-directory root: /tmp/ok/afile" ] |}).
Proof. reflexivity. Qed.

Example getValidRootDirectories_no_roots :
  getValidRootDirectories toUpperCase Posix.normalize
    (Posix.resolve (js "/work")) (posix_resolve_throws cwd_unreadable)
    example_stat []
    {| world := tt; console := [] |}
  = (Resolved [], {| world := tt; console := [] |}).
Proof. reflexivity. Qed.

(** * Further properties of the code *)

(** ** What the stripping step removes *)

Lemma dropWhile_split (f : code_unit -> bool) (s : jsstring) :
  exists removed, s = removed ++ dropWhile f s /\ forallb f removed = true.
Proof.
  induction s as [|c t [removed [E F]]].
  - now exists [].
  - simpl. destruct (f c) eqn:Hc.
    + exists (c :: removed). simpl. rewrite Hc, F. split; [now f_equal|reflexivity].
    + now exists [].
Qed.

Lemma dropWhileEnd_split (f : code_unit -> bool) (s : jsstring) :
  exists removed, s = dropWhileEnd f s ++ removed /\ forallb f removed = true.
Proof.
  induction s as [|c t [removed [E F]]].
  - now exists [].
  - rewrite dropWhileEnd_cons.
    destruct (dropWhileEnd f t) as [|d t'] eqn:D.
    + destruct (f c) eqn:Hc.
      * exists (c :: removed). simpl in E. subst t. simpl. rewrite Hc, F.
        now split.
      * exists removed. simpl in E. subst t. now split.
    + exists removed. split; [|exact F]. simpl. f_equal. exact E.
Qed.

Lemma drop_leading_quote_split (s : jsstring) :
  exists q, s = q ++ drop_leading_quote s
            /\ forallb is_quote q = true /\ List.length q <= 1.
Proof.
  destruct s as [|c t].
  - exists []. repeat split. simpl. lia.
  - simpl. destruct (is_quote c) eqn:Hc.
    + exists [c]. simpl. rewrite Hc. repeat split. lia.
    + exists []. repeat split. simpl. lia.
Qed.

Lemma drop_trailing_quote_split (s : jsstring) :
  exists q, s = drop_trailing_quote s ++ q
            /\ forallb is_quote q = true /\ List.length q <= 1.
Proof.
  induction s as [|c t [q [E [F L]]]].
  - exists []. repeat split. simpl. lia.
  - destruct t as [|d t].
    + simpl. destruct (is_quote c) eqn:Hc.
      * exists [c]. simpl. rewrite Hc. repeat split. lia.
      * exists []. repeat split. simpl. lia.
    + exists q. split; [|now split].
      change (drop_trailing_quote (c :: d :: t))
        with (c :: drop_trailing_quote (d :: t)).
      simpl. f_equal. exact E.
Qed.

(** X1.  The stripping step of [normalizePath] only takes away from the two
    ends: the input is some whitespace, at most one quote, the stripped
    string, at most one quote, and some whitespace; nothing inside is
    touched. *)
Theorem stripWrapping_keeps_the_inside :
  forall p : jsstring,
    exists (ws1 q1 q2 ws2 : jsstring),
      p = ws1 ++ q1 ++ stripWrapping p ++ q2 ++ ws2
      /\ forallb is_space ws1 = true /\ forallb is_space ws2 = true
      /\ forallb is_quote q1 = true /\ forallb is_quote q2 = true
      /\ List.length q1 <= 1 /\ List.length q2 <= 1.
Proof.
  intro p. unfold stripWrapping, replace_edge_quotes, trim.
  destruct (dropWhile_split is_space p) as [ws1 [E1 F1]].
  destruct (dropWhileEnd_split is_space (dropWhile is_space p))
    as [ws2 [E2 F2]].
  set (t := dropWhileEnd is_space (dropWhile is_space p)) in *.
  destruct (drop_leading_quote_split t) as [q1 [E3 [F3 L3]]].
  destruct (drop_trailing_quote_split (drop_leading_quote t))
    as [q2 [E4 [F4 L4]]].
  exists ws1, q1, q2, ws2. repeat split; try assumption.
  rewrite E1 at 1. rewrite E2 at 1. rewrite E3 at 1. rewrite E4 at 1.
  now rewrite <- !app_assoc.
Qed.

(** ** The shape of the results *)

Lemma no_run2_collapse_slashes (s : jsstring) :
  no_run2 is_slash (collapse_slashes s) = true.
Proof.
  induction s as [|c t IH]; [reflexivity|].
  simpl collapse_slashes.
  destruct (is_slash c) eqn:Hc; simpl andb; cbv iota.
  - destruct t as [|d t']; [simpl; now rewrite Bool.andb_false_r|].
    destruct (is_slash d) eqn:Hd; [exact IH|].
    rewrite no_run2_cons, IH.
    simpl collapse_slashes. rewrite Hd. simpl andb. cbv iota.
    simpl head_is. rewrite Hd. now rewrite Bool.andb_false_r.
  - rewrite no_run2_cons, IH, Hc. reflexivity.
Qed.

Lemma no_run2_prefix (f : code_unit -> bool) (a b : jsstring) :
  no_run2 f (a ++ b) = true -> no_run2 f a = true.
Proof.
  induction a as [|c a IH]; [reflexivity|].
  simpl app. rewrite !no_run2_cons, !Bool.andb_true_iff, !Bool.negb_true_iff.
  intros [H1 H2]. split; [|now apply IH].
  destruct (f c); [|reflexivity]. simpl in *.
  destruct a as [|d a]; [reflexivity|exact H1].
Qed.

Lemma last_unit_filter (f : code_unit -> bool) (s : jsstring) c :
  last_unit (filter f s) = Some c -> f c = true.
Proof.
  induction s as [|d s IH]; [discriminate|].
  simpl. destruct (f d) eqn:Hd; [|exact IH].
  rewrite last_unit_step.
  destruct (last_unit (filter f s)) eqn:L.
  - intro E. apply IH. exact E.
  - intro E. injection E as <-. exact Hd.
Qed.

Lemma unix_branch_no_run2 (q : jsstring) :
  no_run2 is_slash (remove_trailing_slashes (collapse_slashes q)) = true.
Proof.
  unfold remove_trailing_slashes.
  destruct (dropWhileEnd_prefix is_slash (collapse_slashes q)) as [rest E].
  apply (no_run2_prefix _ _ rest). rewrite <- E.
  apply no_run2_collapse_slashes.
Qed.

(** X2.  On every host, what [normalizePath] returns for a Unix path has no
    two slashes in a row and does not end with a slash, whatever the input
    had. *)
Theorem normalizePath_unix_result_shape :
  forall (upcase path_normalize : jsstring -> jsstring) (p : jsstring),
    isUnixPath (stripWrapping p) = true ->
    no_run2 is_slash (normalizePath upcase path_normalize p) = true
    /\ Posix.ends_with_slash (normalizePath upcase path_normalize p) = false.
Proof.
  intros upcase nz p Hu. unfold normalizePath. rewrite Hu.
  split.
  - apply unix_branch_no_run2.
  - unfold remove_trailing_slashes, Posix.ends_with_slash. rewrite last_unit_dropWhileEnd.
    destruct (last_unit _) as [c|] eqn:L; [|reflexivity].
    apply last_unit_filter in L. now apply Bool.negb_true_iff.
Qed.

Lemma normalizePath_unix_result_shape_witness :
  isUnixPath (stripWrapping (js " '///usr//local///bin//' ")) = true
  /\ normalizePath_posix (js " '///usr//local///bin//' ") = js "/usr/local/bin"
  /\ no_run2 is_slash (normalizePath_posix (js " '///usr//local///bin//' "))
     = true.
Proof.
  split; [reflexivity|]. split; [reflexivity|].
  exact (proj1 (normalizePath_unix_result_shape toUpperCase Posix.normalize
                  (js " '///usr//local///bin//' ") eq_refl)).
Defined.

Lemma unix_branch_result_head (p : jsstring) :
  startsWith (js "/") p = true ->
  match_drive (remove_trailing_slashes (collapse_slashes p)) = false.
Proof.
  intro H. rewrite (collapse_then_trim_absolute p H).
  unfold posix_form_spec. destruct (components p) as [|seg segs];
    [reflexivity|].
  rewrite absolute_of_cons. unfold match_drive.
  destruct (seg ++ absolute_of segs); reflexivity.
Qed.

Lemma lower_not_slash c : is_lower c = true -> is_slash (upper_unit c) = false.
Proof.
  intro H. apply letter_not_slash. apply upper_unit_letter.
  unfold is_letter. now rewrite H.
Qed.

Lemma lower_upper_unit c : is_lower c = true -> is_upper (upper_unit c) = true.
Proof. intro H. unfold upper_unit. rewrite H. units. Qed.

(** X3.  On every host, a result of [normalizePath] that begins with a drive
    letter and a colon has no forward slash in it, and its drive letter is
    in upper case. *)
Theorem normalizePath_drive_result_shape :
  forall (path_normalize : jsstring -> jsstring) (p : jsstring),
    match_drive (normalizePath toUpperCase path_normalize p) = true ->
    no_slash (normalizePath toUpperCase path_normalize p) = true
    /\ head_is is_upper (normalizePath toUpperCase path_normalize p) = true.
Proof.
  intros nz p. unfold normalizePath.
  destruct (isUnixPath (stripWrapping p)) eqn:Hu.
  - rewrite unix_branch_result_head by now apply isUnixPath_startsWith.
    discriminate.
  - set (normalized := nz _).
    destruct (match_windows_like normalized) eqn:W.
    + pose proof (no_slash_backslashes normalized) as NS.
      set (result := slashes_to_backslashes normalized) in *.
      destruct (match_lower_drive result) eqn:L.
      * destruct result as [|c0 [|c1 rest]]; try discriminate.
        unfold match_lower_drive in L. apply Bool.andb_true_iff in L.
        destruct L as [L0 L1].
        change (toUpperCase (charAt (c0 :: c1 :: rest) 0)
                  ++ slice (c0 :: c1 :: rest) 1)
          with (upper_unit c0 :: c1 :: rest).
        intros _. split.
        -- simpl in NS |- *. rewrite (lower_not_slash c0 L0).
           apply Bool.andb_true_iff in NS. now destruct NS as [_ ->].
        -- simpl. now apply lower_upper_unit.
      * intro D. split; [exact NS|].
        destruct result as [|c0 [|c1 rest]]; try discriminate.
        unfold match_drive in D. unfold match_lower_drive in L.
        apply Bool.andb_true_iff in D. destruct D as [D0 D1].
        rewrite D1, Bool.andb_true_r in L. simpl.
        unfold is_letter in D0. now rewrite L in D0.
    + unfold match_windows_like in W.
      apply Bool.orb_false_iff in W. destruct W as [W _].
      apply Bool.orb_false_iff in W. destruct W as [W _].
      rewrite W. discriminate.
Qed.

Lemma normalizePath_drive_result_shape_witness :
  match_drive (normalizePath toUpperCase Posix.normalize (js "./d:/Data/x/"))
  = true
  /\ normalizePath toUpperCase Posix.normalize (js "./d:/Data/x/")
     = js "D:\Data\x\"
  /\ no_slash (normalizePath toUpperCase Posix.normalize (js "./d:/Data/x/"))
     = true.
Proof.
  split; [reflexivity|]. split; [reflexivity|].
  exact (proj1 (normalizePath_drive_result_shape Posix.normalize
                  (js "./d:/Data/x/") eq_refl)).
Defined.

(** ** [convertToWindowsPath] on its own *)

(** The case mappings [convertToWindowsPath] can be given: of the empty
    string the empty string, and of a one-unit string either that string or
    a string without a slash.  [String.prototype.toUpperCase] is one. *)
Lemma toUpperCase_plain :
  toUpperCase [] = []
  /\ forall c, toUpperCase [c] = [c] \/ no_slash (toUpperCase [c]) = true.
Proof.
  split; [reflexivity|]. intro c. simpl. unfold upper_unit.
  destruct (is_lower c) eqn:L; [|now left].
  right. simpl. pose proof (lower_not_slash c L) as H.
  unfold upper_unit in H. rewrite L in H. now rewrite H.
Qed.

Lemma convertToWindowsPath_no_slash (upcase : jsstring -> jsstring)
    (q : jsstring) :
  no_slash q = true -> convertToWindowsPath upcase q = q.
Proof.
  intro H. unfold convertToWindowsPath.
  destruct q as [|c q]; [reflexivity|].
  assert (Hc : is_slash c = false).
  { simpl in H. apply Bool.andb_true_iff in H.
    now apply Bool.negb_true_iff. }
  assert (S : startsWith (js "/mnt/") (c :: q) = false).
  { cbn - [N.eqb]. unfold is_slash in Hc. rewrite N.eqb_sym.
    fold CHAR_FORWARD_SLASH. now rewrite Hc. }
  rewrite S.
  assert (U : match_unix_drive (c :: q) = false).
  { unfold match_unix_drive. destruct q as [|c1 [|c2 q]]; try reflexivity.
    now rewrite Hc. }
  rewrite U.
  destruct (match_drive (c :: q)); [|reflexivity].
  now apply slashes_to_backslashes_id.
Qed.

(** X4.  Converting twice is converting once: what [convertToWindowsPath]
    returns is a path it leaves alone, whatever the input. *)
Theorem convertToWindowsPath_idempotent :
  forall (upcase : jsstring -> jsstring) (p : jsstring),
    upcase [] = [] ->
    (forall c, upcase [c] = [c] \/ no_slash (upcase [c]) = true) ->
    convertToWindowsPath upcase (convertToWindowsPath upcase p)
    = convertToWindowsPath upcase p.
Proof.
  intros upcase p H0 H1.
  assert (K : forall (s : jsstring) (i : nat) (y : jsstring),
             no_slash y = true ->
             convertToWindowsPath upcase (upcase (charAt s i) ++ js ":" ++ y)
             = upcase (charAt s i) ++ js ":" ++ y).
  { intros s i y Hy. unfold charAt. destruct (nth_error s i) as [c|].
    - destruct (H1 c) as [E|E].
      + rewrite E. destruct (is_slash c) eqn:Hc.
        * apply is_slash_eq in Hc. subst c.
          unfold convertToWindowsPath. simpl app.
          destruct y; reflexivity.
        * apply convertToWindowsPath_no_slash. simpl. now rewrite Hc, Hy.
      + apply convertToWindowsPath_no_slash.
        now rewrite !no_slash_app, E, Hy.
    - rewrite H0. apply convertToWindowsPath_no_slash. exact Hy. }
  destruct (startsWith (js "/mnt/") p) eqn:S.
  - assert (E : convertToWindowsPath upcase p
                = upcase (charAt p 5) ++ js ":"
                    ++ slashes_to_backslashes (slice p 6))
      by (unfold convertToWindowsPath; now rewrite S).
    rewrite E. apply K, no_slash_backslashes.
  - destruct (match_unix_drive p) eqn:U.
    + assert (E : convertToWindowsPath upcase p
                  = upcase (charAt p 1) ++ js ":"
                      ++ slashes_to_backslashes (slice p 2))
        by (unfold convertToWindowsPath; now rewrite S, U).
      rewrite E. apply K, no_slash_backslashes.
    + destruct (match_drive p) eqn:D.
      * assert (E : convertToWindowsPath upcase p = slashes_to_backslashes p)
          by (unfold convertToWindowsPath; now rewrite S, U, D).
        rewrite E.
        apply convertToWindowsPath_no_slash, no_slash_backslashes.
      * assert (E : convertToWindowsPath upcase p = p)
          by (unfold convertToWindowsPath; now rewrite S, U, D).
        now rewrite !E.
Qed.

Lemma convertToWindowsPath_idempotent_witness :
  toUpperCase [] = []
  /\ (forall c, toUpperCase [c] = [c] \/ no_slash (toUpperCase [c]) = true)
  /\ convertToWindowsPath toUpperCase (js "/mnt/d/Work/a b") = js "D:\Work\a b"
  /\ convertToWindowsPath toUpperCase
       (convertToWindowsPath toUpperCase (js "/mnt/d/Work/a b"))
     = convertToWindowsPath toUpperCase (js "/mnt/d/Work/a b").
Proof.
  split; [exact (proj1 toUpperCase_plain)|].
  split; [exact (proj2 toUpperCase_plain)|].
  split; [reflexivity|].
  exact (convertToWindowsPath_idempotent toUpperCase (js "/mnt/d/Work/a b")
           (proj1 toUpperCase_plain) (proj2 toUpperCase_plain)).
Defined.

(** X5.  The WSL spelling and the Unix spelling of a location on a drive
    are converted to the same Windows path, which begins with the drive
    letter in upper case and has no forward slash; a Windows path keeps the
    case of its drive letter, and likewise ends up without forward
    slashes. *)
Theorem convertToWindowsPath_spellings_agree :
  forall (c : code_unit) (rest : jsstring),
    is_letter c = true ->
    convertToWindowsPath toUpperCase (wsl_mount_path c rest)
    = convertToWindowsPath toUpperCase (unix_drive_path c rest)
    /\ convertToWindowsPath toUpperCase (unix_drive_path c rest)
       = windows_form_spec c (CHAR_FORWARD_SLASH :: rest)
    /\ convertToWindowsPath toUpperCase (drive_path c rest)
       = c :: CHAR_COLON :: slashes_to_backslashes rest
    /\ no_slash (convertToWindowsPath toUpperCase (wsl_mount_path c rest))
       = true
    /\ no_slash (convertToWindowsPath toUpperCase (drive_path c rest)) = true.
Proof.
  intros c rest Hl.
  assert (E1 : convertToWindowsPath toUpperCase (wsl_mount_path c rest)
               = windows_form_spec c (CHAR_FORWARD_SLASH :: rest))
    by reflexivity.
  assert (E2 : convertToWindowsPath toUpperCase (unix_drive_path c rest)
               = windows_form_spec c (CHAR_FORWARD_SLASH :: rest)).
  { unfold convertToWindowsPath.
    rewrite (match_unix_drive_unix c rest Hl), startsWith_mnt_unix_drive.
    reflexivity. }
  assert (E3 : convertToWindowsPath toUpperCase (drive_path c rest)
               = c :: CHAR_COLON :: slashes_to_backslashes rest).
  { unfold convertToWindowsPath.
    rewrite (match_drive_drive c rest Hl). unfold drive_path.
    rewrite (startsWith_letter (js "/mnt/") c _ eq_refl Hl).
    rewrite (match_unix_drive_letter _ _ Hl).
    simpl. now rewrite (letter_not_slash c Hl). }
  assert (N : forall x, no_slash (windows_form_spec c x) = true).
  { intro x. unfold windows_form_spec. simpl.
    rewrite (letter_not_slash _ (upper_unit_letter c Hl)). simpl.
    apply no_slash_backslashes. }
  rewrite E1, E2, E3. repeat split.
  - apply N.
  - simpl. rewrite (letter_not_slash c Hl). simpl. apply no_slash_backslashes.
Qed.

Lemma convertToWindowsPath_spellings_agree_witness :
  is_letter 100%N = true
  /\ convertToWindowsPath toUpperCase (js "/mnt/d/Work/x")
     = convertToWindowsPath toUpperCase (js "/d/Work/x")
  /\ convertToWindowsPath toUpperCase (js "/d/Work/x") = js "D:\Work\x"
  /\ convertToWindowsPath toUpperCase (js "d:/Work/x") = js "d:\Work\x".
Proof.
  destruct (convertToWindowsPath_spellings_agree 100%N (js "Work/x") eq_refl)
    as [H1 [H2 _]].
  destruct (convertToWindowsPath_spellings_agree 100%N (js "/Work/x") eq_refl)
    as [_ [_ [H3 _]]].
  split; [reflexivity|]. split; [exact H1|]. split; [exact H2|exact H3].
Defined.

(** ** The canonical path of a root on a POSIX host *)

(** [path.resolve] returns an absolute path made of segments that are not
    empty, [.] or [..]. *)
Lemma posix_resolve_shape (cwd raw : jsstring) :
  exists segs : list jsstring,
    Posix.resolve cwd raw = js "/" ++ join_segments segs
    /\ Forall (fun seg => kept_segment seg = true) segs
    /\ Forall (fun seg => Posix.is_dotdot seg = false) segs.
Proof.
  unfold Posix.resolve, Posix.normalizeString.
  set (resolvedPath := match raw with [] => _ | _ :: _ => _ end).
  set (res := fold_left (Posix.step false) (split resolvedPath) []).
  assert (K : kept_so_far false res).
  { apply fold_step_keeps; [apply split_segments_no_slash|].
    repeat split; constructor. }
  destruct K as [KF [_ KA]]. specialize (KA eq_refl).
  exists (rev res). split; [reflexivity|].
  split; apply Forall_forall; intros seg Hin; rewrite <- in_rev in Hin.
  - rewrite Forall_forall in KF. now apply KF.
  - rewrite Forall_forall in KA. now apply KA.
Qed.

Lemma absolute_of_join (segs : list jsstring) :
  segs <> [] -> js "/" ++ join_segments segs = absolute_of segs.
Proof.
  induction segs as [|seg segs IH]; [congruence|]. intros _.
  destruct segs as [|seg' segs].
  - unfold absolute_of. simpl. now rewrite app_nil_r.
  - rewrite absolute_of_cons, <- IH by discriminate.
    rewrite join_segments_cons by discriminate. reflexivity.
Qed.

Lemma kept_segment_component (seg : jsstring) :
  kept_segment seg = true -> no_slash seg = true /\ is_empty seg = false.
Proof.
  unfold kept_segment. rewrite !Bool.andb_true_iff, Bool.negb_true_iff. tauto.
Qed.

Lemma kept_segment_not_dot (seg : jsstring) :
  kept_segment seg = true -> Posix.is_dot seg = false.
Proof.
  unfold kept_segment. rewrite !Bool.andb_true_iff, !Bool.negb_true_iff. tauto.
Qed.

(** X6.  On a POSIX host, when [path.resolve] gives a plain POSIX path
    other than the bare root that does not end with whitespace or a quote,
    the canonical path of the root is that path itself, for a [file://] URI
    and for a plain path alike; it has no empty, [.] or [..] segment. *)
Theorem parseRootUri_posix_is_resolve :
  forall (upcase path_normalize : jsstring -> jsstring)
         (cwd uri : jsstring),
    let r := Posix.resolve cwd (raw_path_of uri) in
    isUnixPath r = true ->
    r <> js "/" ->
    ends_clean r = true ->
    parseRootUri upcase path_normalize (Posix.resolve cwd) uri = r
    /\ has_dot_segment r = false
    /\ no_run2 is_slash r = true.
Proof.
  intros upcase nz cwd uri r Hu Hroot Hc.
  destruct (posix_resolve_shape cwd (raw_path_of uri)) as [segs [E [K D]]].
  fold r in E.
  assert (Hne : segs <> []).
  { intro Hs. subst segs. apply Hroot. rewrite E. reflexivity. }
  rewrite (absolute_of_join segs Hne) in E.
  assert (C : Forall (fun seg => no_slash seg = true /\ is_empty seg = false)
                segs).
  { eapply Forall_impl; [|exact K]. apply kept_segment_component. }
  assert (Hs : stripWrapping r = r).
  { destruct segs as [|seg segs]; [congruence|].
    rewrite E, absolute_of_cons. apply stripWrapping_clean; [reflexivity|].
    rewrite <- absolute_of_cons, <- E.
    unfold ends_clean in Hc. unfold ends_slash_or_clean.
    destruct (last_unit r); [|reflexivity].
    rewrite Hc. apply Bool.orb_true_r. }
  assert (F : remove_trailing_slashes (collapse_slashes r) = r).
  { rewrite (collapse_then_trim_absolute r (isUnixPath_startsWith r Hu)).
    unfold posix_form_spec. rewrite E at 1.
    rewrite (components_absolute_of segs C). now rewrite E. }
  split; [|split].
  - unfold parseRootUri. fold (raw_path_of uri). fold r.
    unfold normalizePath. now rewrite Hs, Hu.
  - unfold has_dot_segment. rewrite E.
    change (absolute_of segs) with ([] ++ absolute_of segs).
    rewrite split_segment_absolute;
      [|reflexivity|eapply Forall_impl; [|exact C]; simpl; tauto].
    simpl. apply Bool.not_true_iff_false. intro H.
    apply existsb_exists in H. destruct H as [seg [Hin H]].
    rewrite Forall_forall in K, D.
    rewrite (kept_segment_not_dot seg (K seg Hin)), (D seg Hin) in H.
    discriminate.
  - rewrite <- F. apply unix_branch_no_run2.
Qed.

Lemma parseRootUri_posix_is_resolve_witness :
  let r := Posix.resolve (js "/home/u") (raw_path_of (js "file://work/../data/./x y/")) in
  r = js "/home/u/data/x y"
  /\ isUnixPath r = true /\ r <> js "/" /\ ends_clean r = true
  /\ parseRootUri toUpperCase Posix.normalize (Posix.resolve (js "/home/u"))
       (js "file://work/../data/./x y/") = js "/home/u/data/x y".
Proof.
  intro r. split; [reflexivity|]. split; [reflexivity|].
  split; [discriminate|]. split; [reflexivity|].
  exact (proj1 (parseRootUri_posix_is_resolve toUpperCase Posix.normalize
                  (js "/home/u") (js "file://work/../data/./x y/")
                  eq_refl ltac:(discriminate) eq_refl)).
Defined.

(** ** More on the validation of roots *)

Section RootValidationMore.

Variables upcase path_normalize path_resolve : jsstring -> jsstring.
Variable World : Type.
Variable resolve_throws : jsstring -> World -> option thrown.
Variable fs_stat : jsstring -> World -> (thrown + Stats) * World.





(** The array filled so far only stands before what a root adds. *)
Lemma validate_root_acc (root : Root) (acc : list jsstring)
    (st : State World) :
  validate_root upcase path_normalize path_resolve resolve_throws fs_stat
    root acc st
  = match validate_root upcase path_normalize path_resolve resolve_throws
            fs_stat root [] st with
    | (Resolved dirs, st') => (Resolved (acc ++ dirs), st')
    | (Rejected e, st') => (Rejected e, st')
    end.
Proof.
  unfold validate_root, call_parseRootUri, try_catch, bind, stat,
    console_error, ret.
  destruct (resolve_throws _ (world st)) as [e|]; [reflexivity|].
  destruct (fs_stat _ (world st)) as [[e|[[|]]] w']; simpl;
    rewrite ?app_nil_r; reflexivity.
Qed.

Lemma for_of_roots_acc (roots : list Root) :
  forall (acc : list jsstring) (st : State World),
    for_of_roots upcase path_normalize path_resolve resolve_throws fs_stat
      roots acc st
    = match for_of_roots upcase path_normalize path_resolve resolve_throws
              fs_stat roots [] st with
      | (Resolved dirs, st') => (Resolved (acc ++ dirs), st')
      | (Rejected e, st') => (Rejected e, st')
      end.
Proof.
  induction roots as [|root rest IH]; intros acc st.
  - simpl. unfold ret. now rewrite app_nil_r.
  - simpl. unfold bind.
    rewrite (validate_root_acc root acc st).
    destruct (validate_root upcase path_normalize path_resolve
                resolve_throws fs_stat root [] st) as [[dirs|e] st1];
      [|reflexivity].
    simpl app. rewrite (IH (acc ++ dirs) st1), (IH dirs st1).
    destruct (for_of_roots upcase path_normalize path_resolve resolve_throws
                fs_stat rest [] st1) as [[dirs'|e] st2];
      [now rewrite app_assoc|reflexivity].
Qed.

Lemma surviving_directories_app (d1 d2 : list jsstring) (w : World) :
  surviving_directories fs_stat (d1 ++ d2) w
  = surviving_directories fs_stat d1 w
    ++ surviving_directories fs_stat d2 (world_after fs_stat d1 w).
Proof.
  unfold surviving_directories. revert w.
  induction d1 as [|dir rest IH]; intro w; [reflexivity|].
  simpl. destruct (fs_stat dir w) as [r w'] eqn:E. simpl.
  destruct (is_directory_result r); simpl; now rewrite IH.
Qed.

Lemma logged_lines_app (d1 d2 : list jsstring) (w : World) :
  logged_lines fs_stat (d1 ++ d2) w
  = logged_lines fs_stat d1 w
    ++ logged_lines fs_stat d2 (world_after fs_stat d1 w).
Proof.
  unfold logged_lines. revert w.
  induction d1 as [|dir rest IH]; intro w; [reflexivity|].
  simpl. destruct (fs_stat dir w) as [r w'] eqn:E. simpl.
  rewrite IH. now rewrite app_assoc.
Qed.

Lemma world_after_app (d1 d2 : list jsstring) (w : World) :
  world_after fs_stat (d1 ++ d2) w
  = world_after fs_stat d2 (world_after fs_stat d1 w).
Proof.
  revert w. induction d1 as [|dir rest IH]; intro w; [reflexivity|].
  simpl. apply IH.
Qed.

(** X8.  Validating a list of roots in one call is validating its first
    part and then, in the state this leaves, its second part: the
    directories are those of the first part followed by those of the
    second, and the log and the file system are those the second call
    leaves.  When the first part rejects, so does the whole, in the same
    state; when the second part rejects, so does the whole, and the
    directories of the first part are lost. *)
Theorem getValidRootDirectories_app :
  forall (roots1 roots2 : list Root) (st : State World),
    getValidRootDirectories upcase path_normalize path_resolve
      resolve_throws fs_stat (roots1 ++ roots2) st
    = match getValidRootDirectories upcase path_normalize path_resolve
              resolve_throws fs_stat roots1 st with
      | (Resolved dirs1, st1) =>
          match getValidRootDirectories upcase path_normalize path_resolve
                  resolve_throws fs_stat roots2 st1 with
          | (Resolved dirs2, st2) => (Resolved (dirs1 ++ dirs2), st2)
          | (Rejected e, st2) => (Rejected e, st2)
          end
      | (Rejected e, st1) => (Rejected e, st1)
      end.
Proof.
  intros roots1 roots2 st. unfold getValidRootDirectories.
  rewrite for_of_roots_app.
  destruct (for_of_roots upcase path_normalize path_resolve resolve_throws
              fs_stat roots1 [] st) as [[dirs1|e] st1]; [|reflexivity].
  apply for_of_roots_acc.
Qed.



End RootValidationMore.





(** ** [expandHome] on a POSIX host *)

Lemma posix_normalize_absolute c (t : jsstring) :
  is_slash c = true -> startsWith (js "/") (Posix.normalize (c :: t)) = true.
Proof.
  intro Hc. rewrite posix_normalize_cons. cbv zeta. rewrite Hc.
  destruct (Posix.normalizeString (c :: t) (negb true)); reflexivity.
Qed.

Lemma posix_join_absolute (home b : jsstring) :
  startsWith (js "/") home = true ->
  startsWith (js "/") (Posix.join home b) = true.
Proof.
  destruct home as [|c t]; [discriminate|]. intro H.
  assert (Hc : is_slash c = true).
  { cbn - [N.eqb] in H. rewrite Bool.andb_true_r in H.
    unfold is_slash. now rewrite N.eqb_sym. }
  destruct b as [|d b]; simpl Posix.join.
  - now apply posix_normalize_absolute.
  - change ((c :: t) ++ js "/" ++ d :: b) with (c :: (t ++ js "/" ++ d :: b)).
    now apply posix_normalize_absolute.
Qed.

(** X11.  On a POSIX host with an absolute home directory, [expandHome]
    turns [~] and every input that starts with [~/] into an absolute path,
    and expanding a second time changes nothing, whatever the input. *)
Theorem expandHome_posix_absolute :
  forall home p : jsstring,
    startsWith (js "/") home = true ->
    (startsWith (js "~/") p = true \/ p = js "~" ->
     startsWith (js "/") (expandHome home Posix.join p) = true)
    /\ expandHome home Posix.join (expandHome home Posix.join p)
       = expandHome home Posix.join p.
Proof.
  intros home p Hh.
  assert (A : startsWith (js "~/") p || str_eqb p (js "~") = true ->
              startsWith (js "/") (expandHome home Posix.join p) = true).
  { intro T. unfold expandHome. rewrite T. now apply posix_join_absolute. }
  split.
  - intros [T| ->]; apply A; [now rewrite T|reflexivity].
  - destruct (startsWith (js "~/") p || str_eqb p (js "~")) eqn:T.
    + specialize (A eq_refl).
      destruct (expandHome home Posix.join p) as [|c r]; [discriminate|].
      cbn - [N.eqb] in A. rewrite Bool.andb_true_r in A.
      apply N.eqb_eq in A. subst c. unfold expandHome.
      destruct r; reflexivity.
    + unfold expandHome. now rewrite T, T.
Qed.

Lemma expandHome_posix_absolute_witness :
  startsWith (js "/") (js "/home/u") = true
  /\ startsWith (js "~/") (js "~/a/../b/") = true
  /\ expandHome (js "/home/u") Posix.join (js "~/a/../b/") = js "/home/u/b/"
  /\ startsWith (js "/") (expandHome (js "/home/u") Posix.join (js "~/a/../b/"))
     = true
  /\ expandHome (js "/home/u") Posix.join
       (expandHome (js "/home/u") Posix.join (js "~/a/../b/"))
     = expandHome (js "/home/u") Posix.join (js "~/a/../b/").
Proof.
  destruct (expandHome_posix_absolute (js "/home/u") (js "~/a/../b/") eq_refl)
    as [H1 H2].
  split; [reflexivity|]. split; [reflexivity|]. split; [reflexivity|].
  split; [apply H1; now left|exact H2].
Defined.

(** ** The SQL text of the Oracle server *)

(** X12.  The tools [query] and [explain] take one final semicolon off
    the SQL text, with the whitespace after it: whatever comes before that
    semicolon is kept as it is, other semicolons included; a text that does
    not end in this way is not changed at all, its trailing whitespace
    included. *)
Theorem strip_final_semicolon_spec :
  (forall q ws : jsstring,
     forallb is_space ws = true ->
     strip_final_semicolon (q ++ 59%N :: ws) = q)
  /\ (forall sql : jsstring,
        (forall q ws : jsstring,
           forallb is_space ws = true -> sql <> q ++ 59%N :: ws) ->
        strip_final_semicolon sql = sql).
Proof.
  split.
  - intros q ws Hws. induction q as [|c q IH]; simpl.
    + now rewrite Hws.
    + rewrite forallb_app. simpl forallb.
      change (is_space 59%N) with false.
      rewrite Bool.andb_false_r, Bool.andb_false_r. now rewrite IH.
  - intro sql. induction sql as [|c t IH]; intro H; [reflexivity|].
    simpl. destruct (is_semicolon c && forallb is_space t) eqn:E.
    + apply Bool.andb_true_iff in E. destruct E as [Ec Et].
      apply N.eqb_eq in Ec. subst c. now elim (H [] t Et).
    + f_equal. apply IH. intros q ws Hws Heq.
      apply (H (c :: q) ws Hws). now rewrite Heq.
Qed.

Lemma strip_final_semicolon_spec_witness :
  forallb is_space (js "  ") = true
  /\ strip_final_semicolon (js "select 1; select 2;" ++ 59%N :: js "  ")
     = js "select 1; select 2;"
  /\ strip_final_semicolon (js "select 1  ") = js "select 1  ".
Proof.
  split; [reflexivity|]. split.
  - exact (proj1 strip_final_semicolon_spec (js "select 1; select 2;")
             (js "  ") eq_refl).
  - apply (proj2 strip_final_semicolon_spec). intros q ws _ E.
    assert (H : In 59%N (js "select 1  ")).
    { rewrite E. apply in_or_app. right. now left. }
    simpl in H. repeat (destruct H as [H|H]; [discriminate|]). exact H.
Defined.
